(** * update-gomod: dependency-graph discovery and identity resolution

    A shallow embedding of [update-gomod.py] and the properties of its
    identifier codec, repository locator, manifest walk, version and commit
    resolvers and update policy.

    - Python [str] values are modelled as [string]; the text handled here
      (paths, hashes, tags, git output) is taken to be ASCII, so that [len]
      counts characters.
    - A [package.json] is a record of the keys that the program reads, an
      absent key being [None]; the values are taken to be strings (lists
      and dictionaries where the program iterates or indexes).
    - The file system read by the walk is a finite map from file paths to
      files.  Shell commands, the change of directory and [repr] belong to
      the environment: they are variables of the development, and the
      commands run, the lines printed and the messages logged are recorded
      in the state.
    - The check of the go version at start-up is a function of the result
      of the command [go version]; the search for its pattern is written as
      a scan.  The download has the test of existence of a path and
      [mkdir] as further variables, and the two modes read the manifests
      from the state outside.  The parsing of the command line is not
      modelled. *)

From Stdlib Require Import Ascii ZArith Lia.
From stdpp Require Import gmap strings list fin_maps pretty.

Local Open Scope Z_scope.
Local Open Scope nat_scope.

(** ** Python string operations used by the program *)

Module PyStr.

(** [len(s)] *)
Abbreviation len := String.length.

(** [s[n:]] *)
Fixpoint drop (n : nat) (s : string) : string :=
  match n, s with
  | 0, _ => s
  | S _, EmptyString => EmptyString
  | S n', String _ s' => drop n' s'
  end.

(** [s.startswith(p)] *)
Fixpoint startswith (s p : string) {struct p} : bool :=
  match p, s with
  | EmptyString, _ => true
  | String _ _, EmptyString => false
  | String a p', String b s' =>
      if decide (a = b) then startswith s' p' else false
  end.

(** [sub in s] *)
Fixpoint contains (sub s : string) : bool :=
  startswith s sub ||
  match s with
  | EmptyString => false
  | String _ s' => contains sub s'
  end.

(** [s.split(sep)] for a one-character separator: the first field and the
    list of the following ones. *)
Fixpoint split_fields (sep : ascii) (s : string) : string * list string :=
  match s with
  | EmptyString => (EmptyString, [])
  | String a s' =>
      let r := split_fields sep s' in
      if decide (a = sep) then (EmptyString, r.1 :: r.2)
      else (String a r.1, r.2)
  end.

Definition split (sep : ascii) (s : string) : list string :=
  let r := split_fields sep s in r.1 :: r.2.

(** [sep.join(l)] *)
Fixpoint join (sep : string) (l : list string) : string :=
  match l with
  | [] => EmptyString
  | [x] => x
  | x :: xs => x +:+ sep +:+ join sep xs
  end.

(** Number of occurrences of a character. *)
Fixpoint count (c : ascii) (s : string) : nat :=
  match s with
  | EmptyString => 0
  | String a s' => (if decide (a = c) then 1 else 0) + count c s'
  end.

(** [c not in s] for a character [c]. *)
Definition free_of (c : ascii) (s : string) : Prop := count c s = 0.

(** *** [int(s, 16)]

    CPython (3.6 and later): surrounding whitespace is skipped, then an
    optional sign, an optional [0x]/[0X] prefix (which may be followed by
    one underscore), then at least one hexadecimal digit, with single
    underscores allowed between digits.  [None] stands for [ValueError]. *)

Definition is_space (c : ascii) : bool :=
  let n := nat_of_ascii c in
  ((9 <=? n) && (n <=? 13)) || ((28 <=? n) && (n <=? 32)).

Definition hex_digit (c : ascii) : option Z :=
  let n := nat_of_ascii c in
  if (48 <=? n) && (n <=? 57) then Some (Z.of_nat (n - 48))
  else if (97 <=? n) && (n <=? 102) then Some (Z.of_nat (n - 87))
  else if (65 <=? n) && (n <=? 70) then Some (Z.of_nat (n - 55))
  else None.

Fixpoint lstrip (s : string) : string :=
  match s with
  | EmptyString => EmptyString
  | String c s' => if is_space c then lstrip s' else s
  end.

Definition skip_sign (s : string) : bool * string :=
  match s with
  | String "+" s' => (false, s')
  | String "-" s' => (true, s')
  | _ => (false, s)
  end.

Definition skip_0x (s : string) : string :=
  match s with
  | String "0" (String x s') =>
      if decide (x = "x"%char ∨ x = "X"%char) then
        match s' with
        | String "_" s'' => s''
        | _ => s'
        end
      else s
  | _ => s
  end.

(** The digit scan: [prev_us] tells that the previous character was an
    underscore, [nd] counts the digits read, [acc] is their value. *)
Fixpoint scan_digits (prev_us : bool) (nd : nat) (acc : Z) (s : string)
  : option (Z * nat * string) :=
  match s with
  | EmptyString => if prev_us then None else Some (acc, nd, EmptyString)
  | String c s' =>
      if decide (c = "_"%char) then
        if prev_us then None else scan_digits true nd acc s'
      else
        match hex_digit c with
        | Some d => scan_digits false (S nd) (16 * acc + d)%Z s'
        | None => if prev_us then None else Some (acc, nd, s)
        end
  end.

Definition int16 (s : string) : option Z :=
  let '(neg, s1) := skip_sign (lstrip s) in
  let s2 := skip_0x s1 in
  match s2 with
  | String "_" _ => None
  | _ =>
      match scan_digits false 0 0%Z s2 with
      | Some (v, S _, rest) =>
          match lstrip rest with
          | EmptyString => Some (if neg then (- v)%Z else v)
          | _ => None
          end
      | _ => None
      end
  end.

(** A string made of hexadecimal digits only. *)
Fixpoint all_hex (s : string) : bool :=
  match s with
  | EmptyString => true
  | String c s' => bool_decide (is_Some (hex_digit c)) && all_hex s'
  end.

End PyStr.

(** ** Exceptions and results *)

Inductive exception :=
| ValueError (msg : string)
| KeyError (key : string)
| IndexError
| FileNotFoundError (path : string)
| JSONDecodeError (path : string)
| DownloadFailure (msg : string)
| GetCommitFailure (msg : string)
| GetVersionFailure (msg : string).

Inductive result (A : Type) :=
| Return (a : A)
| Raise (e : exception).
Arguments Return {A} a.
Arguments Raise {A} e.

#[global] Instance result_ret : MRet result := @Return.
#[global] Instance result_bind : MBind result := λ A B f m,
  match m with
  | Return a => f a
  | Raise e => Raise e
  end.

(** [d[key]] on a dictionary entry that may be absent. *)
Definition getitem {A} (entry : option A) (key : string) : result A :=
  match entry with
  | Some a => Return a
  | None => Raise (KeyError key)
  end.

(** A dictionary literal: a later item replaces an earlier one with the
    same key. *)
Definition dict_of_items {A} (items : list (string * A)) : gmap string A :=
  foldl (λ m kv, <[kv.1 := kv.2]> m) ∅ items.

(** [del d[key]] *)
Definition py_del {A} (d : gmap string A) (key : string)
  : result (gmap string A) :=
  match d !! key with
  | Some _ => Return (delete key d)
  | None => Raise (KeyError key)
  end.

(** [l.pop()]: the last element and the list without it. *)
Fixpoint list_pop {A} (l : list A) : option (A * list A) :=
  match l with
  | [] => None
  | x :: l' =>
      match list_pop l' with
      | None => Some (x, [])
      | Some (y, r) => Some (y, x :: r)
      end
  end.

(** ** Data *)

Record RepoVersion := {
  gx_hash : string;
  git_repo : string;
  version : option string;
  pkg : string
}.

(** The parts of a [package.json] that the program reads.  An absent key
    is [None]. *)
Record dep_info := {
  d_name : option string;   (* ['name'] *)
  d_hash : option string    (* ['hash'] *)
}.

Record gx_info := {
  dvcsimport : option string
}.

Record package_info := {
  gxDependencies : option (list dep_info);
  gx : option gx_info;
  info_version : option string   (* ['version'] *)
}.

(** What is found at a path of the file system. *)
Inductive file :=
| NotJSON
| JSON (info : package_info).

Record CompletedProcess := {
  returncode : Z;
  stdout : string
}.

(** The inlined result of the query for the repositories of [gxed]. *)
Definition gxed_items : list (string * string) :=
    [ ("bbloom", "github.com/gxed/bbloom");
      ("client_golang", "github.com/gxed/client_golang");
      ("eventfd", "github.com/gxed/eventfd");
      ("GoEndian", "github.com/gxed/GoEndian");
      ("go-is-domain", "github.com/gxed/go-is-domain");
      ("superrepo", "github.com/gxed/superrepo");
      ("golang-levenshtein", "github.com/gxed/golang-levenshtein");
      ("go-homedir", "github.com/gxed/go-homedir");
      ("raft", "github.com/gxed/raft");
      ("go-codec", "github.com/gxed/go-codec");
      ("go-metrics", "github.com/gxed/go-metrics");
      ("cli", "github.com/gxed/cli");
      ("raft-boltdb", "github.com/gxed/raft-boltdb");
      ("bolt", "github.com/gxed/bolt");
      ("mux", "github.com/gxed/mux");
      ("context", "github.com/gxed/context");
      ("btcd", "github.com/gxed/btcd");
      ("ed25519", "github.com/gxed/ed25519");
      ("s3gof3r", "github.com/gxed/s3gof3r");
      ("bazil-fuse", "github.com/gxed/bazil-fuse");
      ("mmap-go", "github.com/gxed/mmap-go");
      ("errors", "github.com/gxed/errors");
      ("smux", "github.com/gxed/smux");
      ("websocket", "github.com/gxed/websocket");
      ("badger", "github.com/gxed/badger");
      ("go-lz4", "github.com/gxed/go-lz4");
      ("btcutil", "github.com/gxed/btcutil");
      ("protobuf", "github.com/gxed/protobuf");
      ("go-farm", "github.com/gxed/go-farm");
      ("go-immutable-radix", "github.com/gxed/go-immutable-radix");
      ("golang-lru", "github.com/gxed/golang-lru");
      ("sys", "github.com/gxed/sys");
      ("ginkgo", "github.com/gxed/ginkgo");
      ("gomega", "github.com/gxed/gomega");
      ("base58", "github.com/gxed/base58");
      ("sha256-simd", "github.com/gxed/sha256-simd");
      ("blake2b-simd", "github.com/gxed/blake2b-simd");
      ("opentracing-go", "github.com/gxed/opentracing-go");
      ("go.uuid", "github.com/gxed/go.uuid");
      ("go-check", "github.com/gxed/go-check");
      ("pubsub", "github.com/gxed/pubsub");
      ("hashland", "github.com/gxed/hashland");
      ("zeroconf", "github.com/gxed/zeroconf");
      ("dns", "github.com/gxed/dns");
      ("go-net", "github.com/gxed/go-net");
      ("go-text", "github.com/gxed/go-text");
      ("go-crypto", "github.com/gxed/go-crypto");
      ("go4-lock", "github.com/gxed/go4-lock");
      ("go-isatty", "github.com/gxed/go-isatty");
      ("go-colorable", "github.com/gxed/go-colorable");
      ("structs", "github.com/gxed/structs");
      ("go-toml", "github.com/gxed/go-toml");
      ("toml", "github.com/gxed/toml");
      ("pb", "github.com/gxed/pb");
      ("go-runewidth", "github.com/gxed/go-runewidth");
      ("color", "github.com/gxed/color");
      ("tools", "github.com/gxed/tools");
      ("jsondiff", "github.com/gxed/jsondiff");
      ("ansi", "github.com/gxed/ansi");
      ("go-multierror", "github.com/gxed/go-multierror");
      ("go-errwrap", "github.com/gxed/go-errwrap");
      ("fsnotify", "github.com/gxed/fsnotify");
      ("fuse", "github.com/gxed/fuse");
      ("go-crypto-dav", "github.com/gxed/go-crypto-dav");
      ("bulb", "github.com/gxed/bulb");
      ("sizedwaitgroup", "github.com/gxed/sizedwaitgroup");
      ("go-git", "github.com/gxed/go-git");
      ("go-diff", "github.com/gxed/go-diff");
      ("warnings", "github.com/gxed/warnings");
      ("gcfg", "github.com/gxed/gcfg");
      ("ssh-agent", "github.com/gxed/ssh-agent");
      ("go-billy", "github.com/gxed/go-billy");
      ("uuid", "github.com/gxed/uuid");
      ("go-nat", "github.com/gxed/go-nat");
      ("goupnp", "github.com/gxed/goupnp");
      ("backoff", "github.com/gxed/backoff");
      ("go_rng", "github.com/gxed/go_rng");
      ("go-junit-report", "github.com/gxed/go-junit-report");
      ("go-require-gx", "github.com/gxed/go-require-gx");
      ("opencensus-go", "github.com/gxed/opencensus-go");
      ("go-shellwords", "github.com/gxed/go-shellwords");
      ("grpc-go", "github.com/gxed/grpc-go");
      ("oauth2", "github.com/gxed/oauth2");
      ("mock", "github.com/gxed/mock");
      ("glog", "github.com/gxed/glog");
      ("go-genproto", "github.com/gxed/go-genproto");
      ("google-cloud-go", "github.com/gxed/google-cloud-go");
      ("google-api-go-client", "github.com/gxed/google-api-go-client");
      ("go-sync", "github.com/gxed/go-sync");
      ("pq", "github.com/gxed/pq");
      ("prometheus-common", "github.com/gxed/prometheus-common");
      ("client_model", "github.com/gxed/client_model");
      ("httprouter", "github.com/gxed/httprouter");
      ("go-gitignore", "github.com/gxed/go-gitignore");
      ("aws-sdk-go", "github.com/gxed/aws-sdk-go");
      ("go-jmespath", "github.com/gxed/go-jmespath");
      ("envconfig", "github.com/gxed/envconfig");
      ("go-ceph", "github.com/gxed/go-ceph");
      ("testify", "github.com/gxed/testify");
      ("gods", "github.com/gxed/gods");
      ("go-buffruneio", "github.com/gxed/go-buffruneio");
      ("ssh_config", "github.com/gxed/ssh_config");
      ("go-flags", "github.com/gxed/go-flags") ].

Definition get_gxed_repos_from_github : result (gmap string string) :=
  let repo_map := dict_of_items gxed_items in
  py_del repo_map "bbloom".

Definition _dvcsimport_to_git_repo (dvcsimport_path : string) : string :=
  let layered_paths := PyStr.split "/" dvcsimport_path in
  PyStr.join "/" (take 3 layered_paths).

(** The choice of the git repository of a package, as made in
    [get_repo_deps]: the mirror in [gxed] when there is one, the repository
    of the import path otherwise. *)
Definition locate_git_repo (gx_pkg_name pkg : string) : result string :=
  gxed_repo_map ← get_gxed_repos_from_github;
  match gxed_repo_map !! gx_pkg_name with
  | Some r => Return r
  | None => Return (_dvcsimport_to_git_repo pkg)
  end.

(** [None] is formatted as the text [None]. *)
Definition format_opt (o : option string) : string := default "None" o.

Section Program.

(** The environment variables read at start-up. *)
Variables GOPATH HOME : option string.

Definition TMP_GIT_REPO_PATH : string :=
  format_opt HOME +:+ "/.py-gx-gomod/gx-git-repos".
Definition GX_PREFIX : string := format_opt GOPATH +:+ "/src/gx/ipfs".

(** *** Identifier codec *)

Definition make_gx_path (gx_hash repo_name : string) : string :=
  GX_PREFIX +:+ "/" +:+ gx_hash +:+ "/" +:+ repo_name.

Definition extract_gx_hash (gx_path : string) : result (string * string) :=
  if negb (PyStr.startswith gx_path GX_PREFIX) then
    Raise (ValueError ("gx_path=" +:+ gx_path +:+
                       " should have the preifx " +:+ GX_PREFIX))
  else
    let path_list :=
      PyStr.split "/" (PyStr.drop (PyStr.len GX_PREFIX + 1) gx_path) in
    if length path_list <? 2 then
      Raise (ValueError ("malform gx_path=" +:+ gx_path))
    else
      match path_list !! 0, path_list !! 1 with
      | Some a, Some b => Return (a, b)
      | _, _ => Raise IndexError
      end.

Definition make_git_repo_path (git_repo : string) : string :=
  TMP_GIT_REPO_PATH +:+ "/" +:+ git_repo.

Definition make_git_path (git_repo_path : string) : string :=
  git_repo_path +:+ "/.git".

Definition make_git_cmd (path command : string) : string :=
  "git --git-dir=" +:+ make_git_path path +:+ " " +:+ command.

(** *** The walk over the manifests *)

Record walk_state := {
  visited_repos : gset string;
  queue : list string;
  deps : list RepoVersion;
  opened : list string   (* the files opened so far, in order *)
}.

(** The state with another work list. *)
Definition with_queue (st : walk_state) (queue' : list string) : walk_state :=
  {| visited_repos := visited_repos st; queue := queue';
     deps := deps st; opened := opened st |}.

Section Walk.

(** The manifests on disk, by file path. *)
Variable fs : gmap string file.

(** [json.load(open(path))] *)
Definition load_json (path : string) : result package_info :=
  match fs !! path with
  | None => Raise (FileNotFoundError path)
  | Some NotJSON => Raise (JSONDecodeError path)
  | Some (JSON info) => Return info
  end.

(** The loop over [package_info['gxDependencies']]. *)
Fixpoint enqueue_deps (l : list dep_info) (queue : list string)
  : result (list string) :=
  match l with
  | [] => Return queue
  | dep :: l' =>
      dep_name ← getitem (d_name dep) "name";
      dep_gx_hash ← getitem (d_hash dep) "hash";
      let dep_gx_path := make_gx_path dep_gx_hash dep_name in
      enqueue_deps l' (queue ++ [dep_gx_path])
  end.

(** The record of a package that is not the root. *)
Definition make_repo_version (repo_path : string)
    (package_info : package_info) : result RepoVersion :=
  gx_entry ← getitem (gx package_info) "gx";
  pkg ← getitem (dvcsimport gx_entry) "dvcsimport";
  '(gx_hash, gx_pkg_name) ← extract_gx_hash repo_path;
  git_repo ← locate_git_repo gx_pkg_name pkg;
  let version := info_version package_info in
  Return {| gx_hash := gx_hash; git_repo := git_repo;
            version := version; pkg := pkg |}.

Definition package_file (repo_path : string) : string :=
  repo_path +:+ "/package.json".

(** One iteration of the loop for a path that was not visited, after
    the path was popped. *)
Definition visit (root_repo_path repo_path : string) (st : walk_state)
  : result walk_state :=
  let package_file_path := package_file repo_path in
  package_info ← load_json package_file_path;
  queue' ← match gxDependencies package_info with
           | Some l => enqueue_deps l (queue st)
           | None => Return (queue st)
           end;
  let visited' := visited_repos st ∪ {[repo_path]} in
  let opened' := opened st ++ [package_file_path] in
  if decide (repo_path ≠ root_repo_path) then
    rv ← make_repo_version repo_path package_info;
    Return {| visited_repos := visited'; queue := queue';
              deps := deps st ++ [rv]; opened := opened' |}
  else
    Return {| visited_repos := visited'; queue := queue';
              deps := deps st; opened := opened' |}.

(** How the loop ends: it runs out of work, or an exception leaves it
    after the files in [opened_files] were opened. *)
Inductive walk_outcome :=
| Finished (st : walk_state)
| Raised (e : exception) (opened_files : list string).

Fixpoint walk_loop (fuel : nat) (root_repo_path : string)
    (st : walk_state) : option walk_outcome :=
  match fuel with
  | 0 => None
  | S fuel' =>
      match list_pop (queue st) with
      | None => Some (Finished st)
      | Some (repo_path, queue') =>
          let st' := {| visited_repos := visited_repos st;
                        queue := queue';
                        deps := deps st; opened := opened st |} in
          if decide (repo_path ∈ visited_repos st) then
            walk_loop fuel' root_repo_path st'
          else
            match visit root_repo_path repo_path st' with
            | Return st'' => walk_loop fuel' root_repo_path st''
            | Raise e =>
                Some (Raised e (opened st ++ [package_file repo_path]))
            end
      end
  end.

(** The work a file can cause: its own visit and one pop for each of
    its dependencies. *)
Definition file_weight (f : file) : nat :=
  match f with
  | NotJSON => 1
  | JSON info => S (length (default [] (gxDependencies info)))
  end.

Definition files_weight (m : gmap string file) : nat :=
  sum_list_with (λ kv, file_weight kv.2) (map_to_list m).

Definition walk_fuel : nat := S (S (files_weight fs)).

Definition walk_init (root_repo_path : string) : walk_state :=
  {| visited_repos := ∅; queue := [root_repo_path];
     deps := []; opened := [] |}.

(** The loop of [get_repo_deps] from its initial state. *)
Definition walk (root_repo_path : string) : option walk_outcome :=
  walk_loop walk_fuel root_repo_path (walk_init root_repo_path).

Definition is_github (repo_version : RepoVersion) : Prop :=
  PyStr.contains "github.com" (git_repo repo_version) = true.

Definition get_repo_deps (root_repo_path : string)
  : option (result (list RepoVersion)) :=
  match walk root_repo_path with
  | None => None
  | Some (Raised e _) => Some (Raise e)
  | Some (Finished st) =>
      let github_deps := filter is_github (deps st) in
      Some (Return github_deps)
  end.

End Walk.

(** *** The world outside the program *)

(** The state of everything outside (repositories, the go module, the
    current directory), and what running a shell command or changing the
    directory does to it. *)
Variable E : Type.
Variable subprocess_run : string → E → CompletedProcess * E.
Variable os_chdir : string → E → option E.

(** [repr(s)] of a string. *)
Variable repr_str : string → string.

Record world := {
  ext : E;
  commands : list string;     (* the shell commands run so far *)
  printed : list string;      (* the lines printed so far *)
  debug_log : list string     (* the messages sent to [logger.debug] *)
}.

(** Computations that change the world and may raise. *)
Definition IO (A : Type) : Type := world → result A * world.

Definition io_ret {A} (a : A) : IO A := λ w, (Return a, w).

Definition io_raise {A} (e : exception) : IO A := λ w, (Raise e, w).

Definition io_bind {A B} (m : IO A) (k : A → IO B) : IO B := λ w,
  match m w with
  | (Return a, w') => k a w'
  | (Raise e, w') => (Raise e, w')
  end.

Notation "'let*' x := m 'in' k" := (io_bind m (λ x, k))
  (at level 10, x pattern, m at level 100, k at level 200).

Definition run (cmd : string) : IO CompletedProcess := λ w,
  let '(res, e) := subprocess_run cmd (ext w) in
  (Return res, {| ext := e; commands := commands w ++ [cmd];
                  printed := printed w; debug_log := debug_log w |}).

Definition print (line : string) : IO unit := λ w,
  (Return (), {| ext := ext w; commands := commands w;
                 printed := printed w ++ [line];
                 debug_log := debug_log w |}).

Definition logger_debug (msg : string) : IO unit := λ w,
  (Return (), {| ext := ext w; commands := commands w;
                 printed := printed w;
                 debug_log := debug_log w ++ [msg] |}).

Definition chdir (path : string) : IO unit := λ w,
  match os_chdir path (ext w) with
  | Some e =>
      (Return (), {| ext := e; commands := commands w;
                     printed := printed w; debug_log := debug_log w |})
  | None => (Raise (FileNotFoundError path), w)
  end.

(** [try: m  except ValueError: handler] *)
Definition try_except_ValueError {A} (m handler : IO A) : IO A := λ w,
  match m w with
  | (Raise (ValueError _), w') => handler w'
  | r => r
  end.

(** *** Version and commit resolution *)

Definition tag_cmd (git_repo : string) : string :=
  make_git_cmd (make_git_repo_path git_repo) "tag".

Definition is_version_in_repo (git_repo sem_ver : string) : IO bool :=
  let* res := run (tag_cmd git_repo) in
  if decide (returncode res ≠ 0%Z) then
    io_raise (GetVersionFailure
                ("failed to access the repo: git_repo=" +:+ git_repo))
  else
    let version_list := PyStr.split "010" (stdout res) in
    io_ret (bool_decide (sem_ver ∈ version_list)).

Definition commit_cmd (git_repo gx_hash : string) : string :=
  let git_repo_path := make_git_repo_path git_repo in
  make_git_cmd git_repo_path "rev-list --all" +:+ " | xargs " +:+
  make_git_cmd git_repo_path ("grep " +:+ gx_hash) +:+ " | tail -n1".

Definition get_commit_from_repo (git_repo gx_hash : string)
  : IO (option string) :=
  let* res := run (commit_cmd git_repo gx_hash) in
  if decide (returncode res ≠ 0%Z) then
    io_raise (GetCommitFailure
                ("failed to fetch the commit: gx_hash=" +:+ gx_hash +:+
                 ", repo=" +:+ git_repo))
  else
    let result := stdout res in
    match PyStr.split ":" result !! 0 with
    | None =>
        io_raise (GetCommitFailure
                    ("fail to parse the commit: gx_hash=" +:+ gx_hash +:+
                     ", repo=" +:+ git_repo +:+ ", result=" +:+ result))
    | Some module_commit =>
        match PyStr.int16 module_commit with
        | None => io_ret None
        | Some _ =>
            if decide (PyStr.len module_commit ≠ 40) then io_ret None
            else io_ret (Some module_commit)
        end
    end.

Definition parse_version_from_repo_gx_hash
    (git_repo : string) (raw_version : option string)
    (repo_gx_hash : string) : IO (option string * option string) :=
  let* version :=
    match raw_version with
    | None => io_ret None
    | Some raw =>
        let sem_ver := "v" +:+ raw in
        let* found := is_version_in_repo git_repo sem_ver in
        io_ret (if found : bool then Some sem_ver else None)
    end in
  let* commit := get_commit_from_repo git_repo repo_gx_hash in
  let* _ :=
    match version, commit with
    | Some _, None =>
        logger_debug
          ("can only find version of git_repo=" +:+ git_repo +:+
           " through versions, raw_version=" +:+ format_opt raw_version +:+
           ", repo_gx_hash=" +:+ repo_gx_hash)
    | _, _ => io_ret ()
    end in
  io_ret (version, commit).

(** *** The update *)

Definition go_get_cmd (git_repo version_indicator : string) : string :=
  "GO111MODULE=on go get " +:+ git_repo +:+ "@" +:+ version_indicator.

Definition update_repo_to_go_mod (git_repo : string)
    (version commit : option string) : IO unit :=
  let* version_indicator :=
    match version, commit with
    | Some v, _ =>
        let* _ := print ("updating git_repo=" +:+ git_repo +:+
                         " with version=" +:+ v +:+ " ...") in
        io_ret v
    | None, Some c =>
        let* _ := print ("updating git_repo=" +:+ git_repo +:+
                         " with commit=" +:+ c +:+ " ...") in
        io_ret c
    | None, None =>
        io_raise (ValueError ("failed to update " +:+ git_repo +:+
                              ": version and commit are both None"))
    end in
  let* _ := run (go_get_cmd git_repo version_indicator) in
  io_ret ().

(** [repr] of a [RepoVersion]. *)
Definition repr_opt (o : option string) : string :=
  match o with
  | None => "None"
  | Some s => repr_str s
  end.

Definition repr_RepoVersion (rv : RepoVersion) : string :=
  "RepoVersion(gx_hash=" +:+ repr_str (gx_hash rv) +:+
  ", git_repo=" +:+ repr_str (git_repo rv) +:+
  ", version=" +:+ repr_opt (version rv) +:+
  ", pkg=" +:+ repr_str (pkg rv) +:+ ")".

(** The body of the loop of [update_repos]. *)
Definition update_repo (repo_version : RepoVersion) : IO unit :=
  let '(Build_RepoVersion gx_hash git_repo raw_version _) := repo_version in
  let* (version, commit) :=
    parse_version_from_repo_gx_hash git_repo raw_version gx_hash in
  try_except_ValueError
    (update_repo_to_go_mod git_repo version commit)
    (let* _ := print ("failed to update repo_version=" +:+
                      repr_RepoVersion repo_version) in
     logger_debug ("failed to update the repo " +:+ git_repo)).

Fixpoint for_each {A} (body : A → IO unit) (l : list A) : IO unit :=
  match l with
  | [] => io_ret ()
  | x :: l' => let* _ := body x in for_each body l'
  end.

Definition update_repos (root_repo_path : string)
    (repos : list RepoVersion) : IO unit :=
  let* _ := chdir root_repo_path in
  for_each update_repo repos.

End Program.

Arguments Build_world {E} ext commands printed debug_log.
Arguments ext {E} w.
Arguments commands {E} w.
Arguments printed {E} w.
Arguments debug_log {E} w.
Arguments io_ret {E A} a w.
Arguments io_raise {E A} e w.
Arguments io_bind {E A B} m k w.
Arguments print {E} line w.
Arguments logger_debug {E} msg w.
Arguments try_except_ValueError {E A} m handler w.
Arguments for_each {E A} body l w.

(** ** Auxiliary definitions for the statements *)

(** The world after a command was run. *)
Definition after_run {E} (subprocess_run : string → E → CompletedProcess * E)
    (cmd : string) (w : world E) : world E :=
  {| ext := (subprocess_run cmd (ext w)).2;
     commands := commands w ++ [cmd];
     printed := printed w; debug_log := debug_log w |}.

(** The files opened by a walk, in order. *)
Definition opened_of (out : walk_outcome) : list string :=
  match out with
  | Finished st => opened st
  | Raised _ opened_files => opened_files
  end.

(** A file that holds a manifest. *)
Definition loads (fs : gmap string file) (path : string) : Prop :=
  ∃ info, fs !! path = Some (JSON info).

(** The record that the package at a path contributes. *)
Definition contributes (GOPATH : option string) (fs : gmap string file)
    (repo_path : string) (rv : RepoVersion) : Prop :=
  ∃ info, fs !! package_file repo_path = Some (JSON info) ∧
          make_repo_version GOPATH repo_path info = Return rv.

(** What holds of a state of the walk, for the paths visited so far, in
    the order of their visits. *)
Definition walk_inv (GOPATH : option string) (fs : gmap string file)
    (root_repo_path : string) (st : walk_state) (visit_order : list string)
  : Prop :=
  NoDup visit_order ∧
  opened st = package_file <$> visit_order ∧
  (∀ p, p ∈ visited_repos st ↔ p ∈ visit_order) ∧
  Forall (λ p, loads fs (package_file p)) visit_order ∧
  Forall2 (contributes GOPATH fs)
    (filter (λ p, p ≠ root_repo_path) visit_order) (deps st).

(** What holds of the outcome of the walk. *)
Definition walk_post (GOPATH : option string) (fs : gmap string file)
    (root_repo_path : string) (out : walk_outcome) : Prop :=
  match out with
  | Finished st =>
      queue st = [] ∧ ∃ order, walk_inv GOPATH fs root_repo_path st order
  | Raised e opened_files =>
      ∃ st order p,
        walk_inv GOPATH fs root_repo_path st order ∧ (p ∉ order) ∧
        opened_files = package_file <$> (order ++ [p]) ∧
        (load_json fs (package_file p) = Raise e ∨
         loads fs (package_file p))
  end.

(** The world after a line was printed, and after a message was logged. *)
Definition after_print {E} (line : string) (w : world E) : world E :=
  {| ext := ext w; commands := commands w;
     printed := printed w ++ [line]; debug_log := debug_log w |}.

Definition after_debug {E} (msg : string) (w : world E) : world E :=
  {| ext := ext w; commands := commands w;
     printed := printed w; debug_log := debug_log w ++ [msg] |}.

(** The message logged when only a version was found. *)
Definition only_version_msg (git_repo : string) (raw_version : option string)
    (repo_gx_hash : string) : string :=
  "can only find version of git_repo=" +:+ git_repo +:+
  " through versions, raw_version=" +:+ format_opt raw_version +:+
  ", repo_gx_hash=" +:+ repo_gx_hash.

(** The commit read from the output of a search that ran: its first field
    when [int] accepts it in base 16 and it has 40 characters. *)
Definition commit_of_output (output : string) : option string :=
  let module_commit := (PyStr.split_fields ":" output).1 in
  if bool_decide (is_Some (PyStr.int16 module_commit) ∧
                  PyStr.len module_commit = 40)
  then Some module_commit else None.

(** Isolation of the failures of the repository queries, as a property of
    [update_repos]: whatever the commands return, once the directory could
    be changed the update of a list of dependencies returns normally. *)
Definition query_failures_isolated : Prop :=
  ∀ (HOME : option string) (E : Type)
    (subprocess_run : string → E → CompletedProcess * E)
    (os_chdir : string → E → option E) (repr_str : string → string)
    (root_repo_path : string) (repos : list RepoVersion) (w : world E),
    is_Some (os_chdir root_repo_path (ext w)) →
    ∃ w', update_repos HOME E subprocess_run os_chdir repr_str
            root_repo_path repos w = (Return (), w').

(** ** Example inputs *)

Definition example_GOPATH : option string := Some "/go".
Definition example_HOME : option string := Some "/home/u".

Definition example_manifest (deps : list (string * string))
    (import_path : option string) (declared : option string) : file :=
  JSON {| gxDependencies :=
            Some ((λ d, {| d_name := Some d.1; d_hash := Some d.2 |}) <$> deps);
          gx := (λ p, {| dvcsimport := Some p |}) <$> import_path;
          info_version := declared |}.

(** A root with the dependencies [a] and [b], which both depend on [c],
    which depends on [a] again; [b] is not hosted on github. *)
Definition example_fs : gmap string file :=
  dict_of_items
    [ ("/r/package.json",
       example_manifest [("a", "H1"); ("b", "H2")] None None);
      ("/go/src/gx/ipfs/H1/a/package.json",
       example_manifest [("c", "H3")] (Some "github.com/x/a")
         (Some "1.0.0"));
      ("/go/src/gx/ipfs/H2/b/package.json",
       example_manifest [("c", "H3")] (Some "gitlab.com/x/b/sub") None);
      ("/go/src/gx/ipfs/H3/c/package.json",
       example_manifest [("a", "H1")] (Some "github.com/x/c/d/e") None) ].

Definition example_rv_a : RepoVersion :=
  {| gx_hash := "H1"; git_repo := "github.com/x/a";
     version := Some "1.0.0"; pkg := "github.com/x/a" |}.

Definition example_rv_b : RepoVersion :=
  {| gx_hash := "H2"; git_repo := "gitlab.com/x/b";
     version := None; pkg := "gitlab.com/x/b/sub" |}.

Definition example_rv_c : RepoVersion :=
  {| gx_hash := "H3"; git_repo := "github.com/x/c";
     version := None; pkg := "github.com/x/c/d/e" |}.

(** The state in which the walk of [example_fs] ends. *)
Definition example_final_state : walk_state :=
  {| visited_repos :=
       list_to_set ["/r"; "/go/src/gx/ipfs/H2/b"; "/go/src/gx/ipfs/H3/c";
                    "/go/src/gx/ipfs/H1/a"];
     queue := [];
     deps := [example_rv_b; example_rv_c; example_rv_a];
     opened := ["/r/package.json"; "/go/src/gx/ipfs/H2/b/package.json";
                "/go/src/gx/ipfs/H3/c/package.json";
                "/go/src/gx/ipfs/H1/a/package.json"] |}.

(** A root whose dependency [a] has no manifest on disk. *)
Definition example_fs_missing : gmap string file :=
  dict_of_items
    [ ("/r/package.json", example_manifest [("a", "H1")] None None) ].

Definition example_world : world () :=
  {| ext := (); commands := []; printed := []; debug_log := [] |}.

Definition example_chdir (path : string) (e : ()) : option () := Some e.

Definition example_repr (s : string) : string := "'" +:+ s +:+ "'".

(** Repositories in which every tag listing gives [v1.0.0] and [v2.0.0]
    and every search gives one commit. *)
Definition example_run (cmd : string) (e : ()) : CompletedProcess * () :=
  if PyStr.contains " tag" cmd then
    ({| returncode := 0;
        stdout := "v1.0.0" +:+ String "010" ("v2.0.0" +:+ String "010" "") |},
     e)
  else if PyStr.contains " grep " cmd then
    ({| returncode := 0;
        stdout := "5a13bddfa3a06705681ade8e1d4ea85374b6b12e:package.json:H" |},
     e)
  else ({| returncode := 0; stdout := "" |}, e).

(** The same, except that git fails on the repository [github.com/x/a]. *)
Definition example_run_failing (cmd : string) (e : ())
  : CompletedProcess * () :=
  if PyStr.contains "github.com/x/a" cmd then
    ({| returncode := 128; stdout := "" |}, e)
  else example_run cmd e.

(** A search whose output starts with a token that is not a commit. *)
Definition example_run_stray (cmd : string) (e : ())
  : CompletedProcess * () :=
  ({| returncode := 0;
      stdout := "0x5a13bddfa3a06705681ade8e1d4ea85374b6b1:package.json:H" |},
   e).

(** ** The check of the go version at start-up *)

(** The check is run when the module is loaded, on the result of the
    command [go version].  The search for the pattern
    [go\sversion\sgo([0-9]+\.[0-9]+\.[0-9]+)] is written as a scan: the
    pattern is a sequence of literals, of single characters of a class and
    of three greedy runs of digits, each followed by a literal that is no
    digit or by the end of the pattern, so a shorter run never matches
    where the longest does not, and the match at a position, when there is
    one, is unique. *)

Definition least_go_version_str : string := "1.11.4".

(** [[0-9]] *)
Definition is_digit (c : ascii) : bool :=
  let n := nat_of_ascii c in (48 <=? n) && (n <=? 57).

(** The longest run of digits that starts a string, and what follows it. *)
Fixpoint span_digits (s : string) : string * string :=
  match s with
  | EmptyString => (EmptyString, EmptyString)
  | String c s' =>
      if is_digit c then
        let r := span_digits s' in (String c r.1, r.2)
      else (EmptyString, s)
  end.

(** [[0-9]+] at the start of a string. *)
Definition match_digits (s : string) : option (string * string) :=
  match span_digits s with
  | (EmptyString, _) => None
  | r => Some r
  end.

(** A literal at the start of a string: what follows it. *)
Fixpoint match_literal (literal s : string) : option string :=
  match literal, s with
  | EmptyString, _ => Some s
  | String a literal', String b s' =>
      if decide (a = b) then match_literal literal' s' else None
  | String _ _, EmptyString => None
  end.

(** [\s] at the start of a string. *)
Definition match_space (s : string) : option string :=
  match s with
  | String c s' => if PyStr.is_space c then Some s' else None
  | EmptyString => None
  end.

(** The pattern at the start of a string: the text of its group. *)
Definition match_go_version (s : string) : option string :=
  s ← match_literal "go" s;
  s ← match_space s;
  s ← match_literal "version" s;
  s ← match_space s;
  s ← match_literal "go" s;
  '(major, s) ← match_digits s;
  s ← match_literal "." s;
  '(minor, s) ← match_digits s;
  s ← match_literal "." s;
  '(patch, _) ← match_digits s;
  Some (major +:+ "." +:+ minor +:+ "." +:+ patch).

(** [re.search]: the match at the first position that has one. *)
Fixpoint search_go_version (s : string) : option string :=
  match match_go_version s with
  | Some group => Some group
  | None =>
      match s with
      | EmptyString => None
      | String _ s' => search_go_version s'
      end
  end.

(** How the start-up ends: the module is loaded with the version found, or
    [Exception(msg)] is raised. *)
Inductive start_up :=
| Loaded (version_str : string)
| Exception (msg : string).

Definition check_go_version (res_go_version : CompletedProcess) : start_up :=
  if decide (returncode res_go_version ≠ 0%Z) then
    Exception "failed to run `go version`"
  else
    let res_go_version_str := stdout res_go_version in
    match search_go_version res_go_version_str with
    | None => Exception "failed to parse the version from `go version`"
    | Some version_str =>
        if String.ltb version_str least_go_version_str then
          Exception ("go version should be >= " +:+ least_go_version_str)
        else Loaded version_str
    end.

(** ** The download and the two modes *)

Section Modes.

Variables GOPATH HOME : option string.
Variable E : Type.
Variable subprocess_run : string → E → CompletedProcess * E.
Variable os_chdir : string → E → option E.
Variable repr_str : string → string.

(** [os.path.exists(path)] *)
Variable os_path_exists : string → E → bool.

(** [pathlib.Path(path).mkdir(parents=True, exist_ok=True)]: the state with
    the directory, or the exception that is raised. *)
Variable path_mkdir : string → E → exception + E.

(** The manifests on disk, by file path. *)
Variable manifests : E → gmap string file.

Notation "'let*' x := m 'in' k" := (io_bind m (λ x, k))
  (at level 10, x pattern, m at level 100, k at level 200).

Definition mkdir (path : string) : IO E unit := λ w,
  match path_mkdir path (ext w) with
  | inr e =>
      (Return (), {| ext := e; commands := commands w;
                     printed := printed w; debug_log := debug_log w |})
  | inl exn => (Raise exn, w)
  end.

Definition path_exists (path : string) : IO E bool := λ w,
  (Return (os_path_exists path (ext w)), w).

(** [repr] of the result of a command whose output was not captured. *)
Definition repr_CompletedProcess (args : string) (res : CompletedProcess)
  : string :=
  "CompletedProcess(args=" +:+ repr_str args +:+
  ", returncode=" +:+ pretty (returncode res) +:+ ")".

Definition clone_cmd (git_repo : string) : string :=
  let repo_path := make_git_repo_path HOME git_repo in
  let git_url := "https://" +:+ git_repo in
  "git clone " +:+ git_url +:+ " " +:+ repo_path.

Definition fetch_cmd (git_repo : string) : string :=
  make_git_cmd (make_git_repo_path HOME git_repo) "fetch".

Definition download_git_repo (git_repo : string) : IO E unit :=
  let repo_path := make_git_repo_path HOME git_repo in
  let* _ := mkdir repo_path in
  let* present := path_exists (make_git_path repo_path) in
  let cmd := if negb present then clone_cmd git_repo
             else fetch_cmd git_repo in
  let* res := run E subprocess_run cmd in
  if decide (returncode res ≠ 0%Z) then
    io_raise (DownloadFailure
                ("failed to download/update the git repo: repo=" +:+
                 git_repo +:+ ", res=" +:+ repr_CompletedProcess cmd res))
  else io_ret ().

Definition download_repos (git_repos : list string) : IO E unit :=
  for_each download_git_repo git_repos.

(** The two modes.  [get_repo_deps] reads the manifests of the state in
    which it is called; no result stands for a walk that does not end. *)
Definition do_update (path : string) (w : world E)
  : option (result unit * world E) :=
  match get_repo_deps GOPATH (manifests (ext w)) path with
  | None => None
  | Some (Raise e) => Some (Raise e, w)
  | Some (Return deps) =>
      Some (update_repos HOME E subprocess_run os_chdir repr_str path deps w)
  end.

Definition do_download (path : string) (w : world E)
  : option (result unit * world E) :=
  match get_repo_deps GOPATH (manifests (ext w)) path with
  | None => None
  | Some (Raise e) => Some (Raise e, w)
  | Some (Return deps) =>
      let git_repo_list := git_repo <$> deps in
      Some (download_repos git_repo_list w)
  end.

End Modes.

(** ** Further definitions for the statements *)

(** The path that an entry of [gxDependencies] adds to the work list. *)
Definition dep_path (GOPATH : option string) (dep : dep_info)
  : option string :=
  dep_name ← d_name dep;
  dep_gx_hash ← d_hash dep;
  Some (make_gx_path GOPATH dep_gx_hash dep_name).

(** The entries that the manifest of a package lists. *)
Definition listed_deps (fs : gmap string file) (repo_path : string)
  : list dep_info :=
  match fs !! package_file repo_path with
  | Some (JSON info) => default [] (gxDependencies info)
  | _ => []
  end.

(** The packages to which the manifests lead from the root. *)
Inductive reachable (GOPATH : option string) (fs : gmap string file)
    (root_repo_path : string) : string → Prop :=
| reachable_root : reachable GOPATH fs root_repo_path root_repo_path
| reachable_dep (repo_path : string) (dep : dep_info) (dep_gx_path : string) :
    reachable GOPATH fs root_repo_path repo_path →
    dep ∈ listed_deps fs repo_path →
    dep_path GOPATH dep = Some dep_gx_path →
    reachable GOPATH fs root_repo_path dep_gx_path.

(** A package with all the keys that the walk reads: its manifest loads,
    the entries of its [gxDependencies] have a name and a hash and, for a
    package that is not the root, the manifest has [gx] and [dvcsimport]. *)
Definition well_formed (fs : gmap string file) (root_repo_path : string)
    (repo_path : string) : Prop :=
  ∃ info,
    fs !! package_file repo_path = Some (JSON info) ∧
    Forall (λ dep, is_Some (d_name dep) ∧ is_Some (d_hash dep))
      (default [] (gxDependencies info)) ∧
    (repo_path ≠ root_repo_path →
     ∃ gx_entry, gx info = Some gx_entry ∧ is_Some (dvcsimport gx_entry)).

(** What holds of a state of the walk with respect to the packages that
    can be reached. *)
Definition reach_inv (GOPATH : option string) (fs : gmap string file)
    (root_repo_path : string) (st : walk_state) : Prop :=
  (∀ p, p ∈ visited_repos st ∨ p ∈ queue st →
        reachable GOPATH fs root_repo_path p) ∧
  (root_repo_path ∈ visited_repos st ∨ root_repo_path ∈ queue st) ∧
  (∀ p, p ∈ visited_repos st →
        well_formed fs root_repo_path p ∧
        ∀ dep dep_gx_path,
          dep ∈ listed_deps fs p → dep_path GOPATH dep = Some dep_gx_path →
          dep_gx_path ∈ visited_repos st ∨ dep_gx_path ∈ queue st).

Definition reach_post (GOPATH : option string) (fs : gmap string file)
    (root_repo_path : string) (out : walk_outcome) : Prop :=
  match out with
  | Finished st =>
      (∀ p, reachable GOPATH fs root_repo_path p →
            well_formed fs root_repo_path p) ∧
      (∀ p, p ∈ visited_repos st ↔ reachable GOPATH fs root_repo_path p)
  | Raised e _ =>
      ∃ p, reachable GOPATH fs root_repo_path p ∧
           ¬ well_formed fs root_repo_path p
  end.

(** A string of digits, and a string that does not start with a digit. *)
Fixpoint all_digits (s : string) : bool :=
  match s with
  | EmptyString => true
  | String c s' => is_digit c && all_digits s'
  end.

Definition no_leading_digit (s : string) : bool :=
  match s with
  | EmptyString => true
  | String c _ => negb (is_digit c)
  end.

(** A command of the download of a repository. *)
Definition download_cmd_of (HOME : option string) (git_repo cmd : string)
  : Prop :=
  cmd = clone_cmd HOME git_repo ∨ cmd = fetch_cmd HOME git_repo.


(** ** Further example inputs *)

(** A file system on which no repository was downloaded yet and every
    directory can be made. *)
Definition example_exists (path : string) (e : ()) : bool := false.

Definition example_mkdir (path : string) (e : ()) : exception + () := inr e.

Definition example_manifests (e : ()) : gmap string file := example_fs.

(** The manifest of the root of [example_fs], and one with the same
    dependencies and other keys. *)
Definition example_root_info : package_info :=
  {| gxDependencies :=
       Some [ {| d_name := Some "a"; d_hash := Some "H1" |};
              {| d_name := Some "b"; d_hash := Some "H2" |} ];
     gx := None; info_version := None |}.

Definition example_root_info_gx : package_info :=
  {| gxDependencies := gxDependencies example_root_info;
     gx := Some {| dvcsimport := Some "github.com/x/r" |};
     info_version := Some "0.1.0" |}.

(** A root whose second dependency has no hash. *)
Definition example_info_nohash : package_info :=
  {| gxDependencies :=
       Some [ {| d_name := Some "a"; d_hash := Some "H1" |};
              {| d_name := Some "b"; d_hash := None |} ];
     gx := None; info_version := None |}.

Definition example_fs_nohash : gmap string file :=
  dict_of_items [ ("/r/package.json", JSON example_info_nohash) ].

(** The result of [go version] for go 1.12.5. *)
Definition example_go_version : CompletedProcess :=
  {| returncode := 0;
     stdout := "go version go1.12.5 linux/amd64" +:+ String "010" "" |}.

(** * Properties *)

(** ** Facts about the string operations *)

Section PyStrFacts.
Import PyStr.
Local Arguments String.append !_ _ / : simpl nomatch.

Lemma append_assoc (a b c : string) : (a +:+ b) +:+ c = a +:+ b +:+ c.
Proof. induction a as [|x a IH]; simpl; [done|]. by rewrite IH. Qed.

Lemma append_nil_r (a : string) : a +:+ "" = a.
Proof. induction a as [|x a IH]; simpl; [done|]. by rewrite IH. Qed.

Lemma len_append (a b : string) : len (a +:+ b) = len a + len b.
Proof. induction a as [|x a IH]; simpl; [done|]. by rewrite IH. Qed.

Lemma drop_append (a b : string) : drop (len a) (a +:+ b) = b.
Proof. induction a as [|x a IH]; simpl; [by destruct b|done]. Qed.

Lemma drop_0 (s : string) : drop 0 s = s.
Proof. by destruct s. Qed.

Lemma startswith_append (p s : string) : startswith (p +:+ s) p = true.
Proof.
  induction p as [|x p IH]; simpl; [done|].
  by rewrite decide_True.
Qed.

Lemma startswith_spec (s p : string) :
  startswith s p = true ↔ ∃ t, s = p +:+ t.
Proof.
  revert s. induction p as [|x p IH]; intros s; simpl.
  - split; [by exists s|done].
  - destruct s as [|y s].
    + split; [done|]. by intros [t Ht].
    + case_decide as Hxy.
      * subst y. rewrite IH. split.
        -- intros [t ->]. by exists t.
        -- intros [t Ht]. injection Ht as ->. by exists t.
      * split; [done|]. intros [t Ht]. by injection Ht as -> _.
Qed.

(** [contains] is the substring test. *)
Lemma contains_spec (sub s : string) :
  contains sub s = true ↔ ∃ a b, s = a +:+ sub +:+ b.
Proof.
  induction s as [|y s IH]; simpl.
  - rewrite orb_false_r, startswith_spec. split.
    + intros [t Ht]. by exists "", t.
    + intros [a [b Hab]]. destruct a; [|done]. by exists b.
  - rewrite orb_true_iff, IH, startswith_spec. split.
    + intros [[t Ht]|[a [b Hab]]].
      * by exists "", t.
      * exists (String y a), b. simpl. by rewrite Hab.
    + intros [a [b Hab]]. destruct a as [|x a].
      * left. by exists b.
      * right. simpl in Hab. injection Hab as _ ->. by exists a, b.
Qed.

Lemma split_fields_free (sep : ascii) (s : string) :
  free_of sep s → split_fields sep s = (s, []).
Proof.
  unfold free_of. induction s as [|a s IH]; simpl; [done|].
  case_decide; [done|]. intros Hs. by rewrite IH.
Qed.

Lemma split_fields_append (sep : ascii) (a b : string) :
  free_of sep a →
  split_fields sep (a +:+ String sep b) = (a, split sep b).
Proof.
  unfold free_of, split. induction a as [|x a IH]; simpl.
  - intros _. by rewrite decide_True.
  - case_decide; [done|]. intros Ha. by rewrite IH.
Qed.

Lemma split_free (sep : ascii) (s : string) :
  free_of sep s → split sep s = [s].
Proof. intros Hs. unfold split. by rewrite split_fields_free. Qed.

Lemma split_append (sep : ascii) (a b : string) :
  free_of sep a →
  split sep (a +:+ String sep "" +:+ b) = a :: split sep b.
Proof.
  intros Ha. unfold split at 1.
  change (String sep "" +:+ b) with (String sep b).
  by rewrite split_fields_append.
Qed.

(** [split] never returns the empty list. *)
Lemma split_cons (sep : ascii) (s : string) :
  ∃ w ws, split sep s = w :: ws.
Proof. unfold split. eauto. Qed.

Lemma split_length (sep : ascii) (s : string) :
  length (split sep s) = S (count sep s).
Proof.
  unfold split. induction s as [|a s IH]; simpl; [done|].
  case_decide; simpl in *; lia.
Qed.

(** Joining the fields with the separator gives the string back. *)
Lemma join_split (sep : ascii) (s : string) :
  join (String sep "") (split sep s) = s.
Proof.
  unfold split. induction s as [|a s IH]; simpl; [done|].
  destruct (split_fields sep s) as [w ws].
  case_decide as Ha.
  - subst a. simpl in *. by rewrite IH.
  - destruct ws as [|w' ws]; simpl in *; by rewrite <- IH.
Qed.

(** No field contains the separator. *)
Lemma split_sep_free (sep : ascii) (s : string) :
  Forall (free_of sep) (split sep s).
Proof.
  unfold split, free_of. induction s as [|a s IH]; simpl.
  - by repeat constructor.
  - apply Forall_cons in IH as [Hw Hws].
    case_decide as Ha; simpl.
    + by repeat constructor.
    + constructor; [|done]. simpl. by rewrite decide_False.
Qed.

End PyStrFacts.


(** ** The identifier codec *)

Section CodecFacts.
Import PyStr.
Variable GOPATH : option string.

Lemma drop_prefix_slash (p rest : string) :
  drop (len p + 1) (p +:+ "/" +:+ rest) = rest.
Proof.
  replace (len p + 1) with (len (p +:+ "/")) by (rewrite len_append; done).
  rewrite <- append_assoc. apply drop_append.
Qed.

Lemma make_gx_path_tail (gx_hash repo_name : string) :
  drop (len (GX_PREFIX GOPATH) + 1) (make_gx_path GOPATH gx_hash repo_name)
  = gx_hash +:+ "/" +:+ repo_name.
Proof. unfold make_gx_path. apply drop_prefix_slash. Qed.

Lemma make_gx_path_startswith (gx_hash repo_name : string) :
  startswith (make_gx_path GOPATH gx_hash repo_name) (GX_PREFIX GOPATH) = true.
Proof. unfold make_gx_path. apply startswith_append. Qed.

(** C9: decoding the path made from a hash and a package name that are not
    empty and contain no slash gives back the hash and the name. *)
Theorem extract_gx_hash_make_gx_path (gx_hash repo_name : string) :
  gx_hash ≠ "" → repo_name ≠ "" →
  free_of "/" gx_hash → free_of "/" repo_name →
  extract_gx_hash GOPATH (make_gx_path GOPATH gx_hash repo_name)
  = Return (gx_hash, repo_name).
Proof.
  intros _ _ Hh Hn. unfold extract_gx_hash.
  rewrite make_gx_path_startswith, make_gx_path_tail. simpl negb. cbv iota.
  rewrite (split_append "/" gx_hash repo_name Hh), (split_free _ _ Hn).
  reflexivity.
Qed.

End CodecFacts.

(** ** The repository locator *)

Section LocatorFacts.
Import PyStr.

Lemma bind_Return {A B} (a : A) (f : A → result B) : (Return a ≫= f) = f a.
Proof. reflexivity. Qed.

Lemma gxed_items_bbloom :
  dict_of_items gxed_items !! "bbloom" = Some "github.com/gxed/bbloom".
Proof. vm_compute. reflexivity. Qed.

Lemma gxed_repos_value :
  get_gxed_repos_from_github
  = Return (delete "bbloom" (dict_of_items gxed_items)).
Proof.
  unfold get_gxed_repos_from_github, py_del.
  rewrite gxed_items_bbloom. reflexivity.
Qed.

Lemma locate_git_repo_value (gx_pkg_name pkg : string) :
  locate_git_repo gx_pkg_name pkg =
  Return (default (_dvcsimport_to_git_repo pkg)
            (delete "bbloom" (dict_of_items gxed_items) !! gx_pkg_name)).
Proof.
  unfold locate_git_repo. rewrite gxed_repos_value, bind_Return.
  destruct (_ !! gx_pkg_name); reflexivity.
Qed.

(** C6: the location is a total function of the short name and the import
    path: the entry of the table for a short name that has one and is not
    [bbloom], the first three segments of the import path otherwise. *)
Theorem locate_git_repo_spec (short_name canonical_import_path : string) :
  (∀ location,
     dict_of_items gxed_items !! short_name = Some location →
     short_name ≠ "bbloom" →
     locate_git_repo short_name canonical_import_path = Return location) ∧
  (dict_of_items gxed_items !! short_name = None ∨ short_name = "bbloom" →
   locate_git_repo short_name canonical_import_path
   = Return (join "/" (take 3 (split "/" canonical_import_path)))) ∧
  locate_git_repo "unknown" "example.com/org/repo/sub/pkg"
  = Return "example.com/org/repo".
Proof.
  split; [|split].
  - intros location Hloc Hne. rewrite locate_git_repo_value.
    rewrite lookup_delete_ne, Hloc by congruence. reflexivity.
  - intros Hnone. rewrite locate_git_repo_value.
    destruct (decide (short_name = "bbloom")) as [->|Hne].
    + rewrite lookup_delete_eq. reflexivity.
    + destruct Hnone as [Hnone|Heq]; [|congruence].
      rewrite lookup_delete_ne, Hnone by congruence. reflexivity.
  - vm_compute. reflexivity.
Qed.

End LocatorFacts.

(** ** The commit and version resolvers *)

Section ResolverFacts.
Import PyStr.
Variable HOME : option string.
Variable E : Type.
Variable subprocess_run : string → E → CompletedProcess * E.

Lemma run_value (cmd : string) (w : world E) :
  run E subprocess_run cmd w
  = (Return (subprocess_run cmd (ext w)).1, after_run subprocess_run cmd w).
Proof. unfold run, after_run. by destruct (subprocess_run cmd (ext w)). Qed.

(** The first field of a split always exists. *)
Lemma split_lookup_0 (sep : ascii) (s : string) :
  split sep s !! 0 = Some (split_fields sep s).1.
Proof. done. Qed.

Lemma get_commit_from_repo_value (git_repo gx_hash : string) (w : world E) :
  let cmd := commit_cmd HOME git_repo gx_hash in
  let res := (subprocess_run cmd (ext w)).1 in
  get_commit_from_repo HOME E subprocess_run git_repo gx_hash w =
  (if decide (returncode res ≠ 0%Z) then
     Raise (GetCommitFailure
              ("failed to fetch the commit: gx_hash=" +:+ gx_hash +:+
               ", repo=" +:+ git_repo))
   else Return (commit_of_output (stdout res)),
   after_run subprocess_run cmd w).
Proof.
  intros cmd res. unfold get_commit_from_repo, io_bind.
  rewrite run_value. fold cmd res.
  case_decide as Hrc; [done|].
  rewrite split_lookup_0. unfold commit_of_output.
  destruct (int16 _) as [v|] eqn:Hint.
  - case_decide as Hlen.
    + rewrite bool_decide_eq_false_2; [done|]. by intros [_ ?].
    + rewrite bool_decide_eq_true_2; [done|]. split; [by eexists|lia].
  - rewrite bool_decide_eq_false_2; [done|]. by intros [[? ?] _].
Qed.

(** C10: the first field of a split always exists, so after a search that
    ran [get_commit_from_repo] never raises, and an empty output gives
    [None]. *)
Theorem get_commit_from_repo_parse_total :
  (∀ s : string, ∃ field, split ":" s !! 0 = Some field) ∧
  (∀ git_repo gx_hash (w : world E),
     returncode (subprocess_run (commit_cmd HOME git_repo gx_hash) (ext w)).1
     = 0%Z →
     ∃ commit,
       (get_commit_from_repo HOME E subprocess_run git_repo gx_hash w).1
       = Return commit ∧
       (stdout (subprocess_run (commit_cmd HOME git_repo gx_hash) (ext w)).1
        = "" → commit = None)).
Proof.
  split.
  - intros s. rewrite split_lookup_0. by eexists.
  - intros git_repo gx_hash w Hrc.
    rewrite get_commit_from_repo_value. simpl.
    rewrite decide_False by (rewrite Hrc; naive_solver).
    eexists. split; [done|]. by intros ->.
Qed.

Lemma commit_of_output_Some (output commit : string) :
  commit_of_output output = Some commit ↔
  commit = (split_fields ":" output).1 ∧
  is_Some (int16 commit) ∧ len commit = 40.
Proof.
  unfold commit_of_output. case_bool_decide as Hok.
  - split; [intros [= <-]; tauto|]. by intros [-> _].
  - split; [done|]. intros [-> ?]. tauto.
Qed.

Lemma is_version_in_repo_value (git_repo sem_ver : string) (w : world E) :
  let cmd := tag_cmd HOME git_repo in
  let res := (subprocess_run cmd (ext w)).1 in
  is_version_in_repo HOME E subprocess_run git_repo sem_ver w =
  (if decide (returncode res ≠ 0%Z) then
     Raise (GetVersionFailure
              ("failed to access the repo: git_repo=" +:+ git_repo))
   else Return (bool_decide (sem_ver ∈ split "010" (stdout res))),
   after_run subprocess_run cmd w).
Proof.
  intros cmd res. unfold is_version_in_repo, io_bind.
  rewrite run_value. fold cmd res. by case_decide.
Qed.

(** The second half of [parse_version_from_repo_gx_hash], once the version
    is settled. *)
Lemma parse_version_commit_step (git_repo : string)
    (raw_version : option string) (repo_gx_hash : string)
    (version : option string) (w : world E) :
  let cmd := commit_cmd HOME git_repo repo_gx_hash in
  let res := (subprocess_run cmd (ext w)).1 in
  io_bind (get_commit_from_repo HOME E subprocess_run git_repo repo_gx_hash)
    (λ commit,
       io_bind
         match version, commit with
         | Some _, None =>
             logger_debug
               (only_version_msg git_repo raw_version repo_gx_hash)
         | _, _ => io_ret ()
         end
         (λ _, io_ret (version, commit))) w =
  if decide (returncode res ≠ 0%Z) then
    (Raise (GetCommitFailure
              ("failed to fetch the commit: gx_hash=" +:+ repo_gx_hash +:+
               ", repo=" +:+ git_repo)),
     after_run subprocess_run cmd w)
  else
    (Return (version, commit_of_output (stdout res)),
     match version, commit_of_output (stdout res) with
     | Some _, None =>
         after_debug (only_version_msg git_repo raw_version repo_gx_hash)
           (after_run subprocess_run cmd w)
     | _, _ => after_run subprocess_run cmd w
     end).
Proof.
  intros cmd res. unfold io_bind at 1.
  rewrite get_commit_from_repo_value. fold cmd res.
  case_decide as Hrc; [done|].
  by destruct version, (commit_of_output (stdout res)).
Qed.

Lemma parse_version_absent (git_repo repo_gx_hash : string) (w : world E) :
  let cmd := commit_cmd HOME git_repo repo_gx_hash in
  let res := (subprocess_run cmd (ext w)).1 in
  parse_version_from_repo_gx_hash HOME E subprocess_run
    git_repo None repo_gx_hash w =
  (if decide (returncode res ≠ 0%Z) then
     Raise (GetCommitFailure
              ("failed to fetch the commit: gx_hash=" +:+ repo_gx_hash +:+
               ", repo=" +:+ git_repo))
   else Return (None, commit_of_output (stdout res)),
   after_run subprocess_run cmd w).
Proof.
  intros cmd res. unfold parse_version_from_repo_gx_hash.
  unfold io_bind at 1. unfold io_ret at 1.
  pose proof (parse_version_commit_step git_repo None repo_gx_hash None w)
    as Hstep.
  unfold only_version_msg in Hstep. simpl in Hstep. rewrite Hstep.
  clear Hstep. fold cmd res. by case_decide.
Qed.

Lemma parse_version_present (git_repo raw repo_gx_hash : string)
    (w : world E) :
  let sem_ver := "v" +:+ raw in
  let tag := tag_cmd HOME git_repo in
  let tags := (subprocess_run tag (ext w)).1 in
  let w1 := after_run subprocess_run tag w in
  let version :=
    if bool_decide (sem_ver ∈ split "010" (stdout tags))
    then Some sem_ver else None in
  let cmd := commit_cmd HOME git_repo repo_gx_hash in
  let res := (subprocess_run cmd (ext w1)).1 in
  parse_version_from_repo_gx_hash HOME E subprocess_run
    git_repo (Some raw) repo_gx_hash w =
  if decide (returncode tags ≠ 0%Z) then
    (Raise (GetVersionFailure
              ("failed to access the repo: git_repo=" +:+ git_repo)), w1)
  else if decide (returncode res ≠ 0%Z) then
    (Raise (GetCommitFailure
              ("failed to fetch the commit: gx_hash=" +:+ repo_gx_hash +:+
               ", repo=" +:+ git_repo)),
     after_run subprocess_run cmd w1)
  else
    (Return (version, commit_of_output (stdout res)),
     match version, commit_of_output (stdout res) with
     | Some _, None =>
         after_debug (only_version_msg git_repo (Some raw) repo_gx_hash)
           (after_run subprocess_run cmd w1)
     | _, _ => after_run subprocess_run cmd w1
     end).
Proof.
  intros sem_ver tag tags w1 version cmd res.
  unfold parse_version_from_repo_gx_hash.
  unfold io_bind at 1. unfold io_bind at 1.
  rewrite is_version_in_repo_value. fold tag tags w1.
  case_decide as Htag; [done|].
  unfold io_ret at 1. fold sem_ver version.
  pose proof (parse_version_commit_step git_repo (Some raw) repo_gx_hash
                version w1) as Hstep.
  unfold only_version_msg in Hstep. simpl in Hstep. apply Hstep.
Qed.

(** C5: without a declared version no tag is looked up and no version is
    proposed; with one, the version is proposed exactly when the declared
    version prefixed by [v] is one of the lines of the tag listing. *)
Theorem version_resolution (git_repo repo_gx_hash : string) (w : world E) :
  (let r := parse_version_from_repo_gx_hash HOME E subprocess_run
              git_repo None repo_gx_hash w in
   commands r.2 = commands w ++ [commit_cmd HOME git_repo repo_gx_hash] ∧
   ∀ version commit, r.1 = Return (version, commit) → version = None) ∧
  (∀ declared_version,
     let tags := (subprocess_run (tag_cmd HOME git_repo) (ext w)).1 in
     let found :=
       bool_decide ("v" +:+ declared_version ∈ split "010" (stdout tags)) in
     returncode tags = 0%Z →
     (is_version_in_repo HOME E subprocess_run
        git_repo ("v" +:+ declared_version) w).1 = Return found ∧
     ∀ version commit,
       (parse_version_from_repo_gx_hash HOME E subprocess_run
          git_repo (Some declared_version) repo_gx_hash w).1
       = Return (version, commit) →
       version = if found then Some ("v" +:+ declared_version) else None) ∧
  "v" +:+ "1.2.3" ∈ split "010" ("v1.0.0" +:+ String "010" "v1.2.3") ∧
  "v" +:+ "1.2.3" ∉ split "010" "v1.2.2".
Proof.
  split; [|split; [|split]].
  - rewrite parse_version_absent. simpl. split; [done|].
    intros version commit. case_decide; [done|]. by intros [= <- _].
  - intros declared_version tags found Hrc. split.
    + rewrite is_version_in_repo_value. simpl. fold tags.
      by rewrite decide_False by (rewrite Hrc; naive_solver).
    + intros version commit. rewrite parse_version_present.
      fold tags. rewrite decide_False by (rewrite Hrc; naive_solver).
      fold found. case_decide; [done|]. by intros [= <- _].
  - compute_done.
  - compute_done.
Qed.

(** ** The update policy *)

Variable repr_str : string → string.

Lemma update_repo_to_go_mod_value (git_repo : string)
    (found_version found_commit : option string) (w : world E) :
  update_repo_to_go_mod E subprocess_run git_repo found_version found_commit w
  = match found_version, found_commit with
    | Some v, _ =>
        (Return (),
         after_run subprocess_run (go_get_cmd git_repo v)
           (after_print ("updating git_repo=" +:+ git_repo +:+
                         " with version=" +:+ v +:+ " ...") w))
    | None, Some c =>
        (Return (),
         after_run subprocess_run (go_get_cmd git_repo c)
           (after_print ("updating git_repo=" +:+ git_repo +:+
                         " with commit=" +:+ c +:+ " ...") w))
    | None, None =>
        (Raise (ValueError ("failed to update " +:+ git_repo +:+
                            ": version and commit are both None")), w)
    end.
Proof.
  unfold update_repo_to_go_mod.
  destruct found_version as [v|]; [|destruct found_commit as [c|]].
  - unfold io_bind at 1. unfold io_bind at 2. unfold print at 1.
    unfold io_ret at 1. unfold io_bind. by rewrite run_value.
  - unfold io_bind at 1. unfold io_bind at 2. unfold print at 1.
    unfold io_ret at 1. unfold io_bind. by rewrite run_value.
  - done.
Qed.

(** The loop body, once the resolution of the dependency returned. *)
Lemma update_repo_resolved (rv : RepoVersion)
    (found_version found_commit : option string) (w w1 : world E) :
  parse_version_from_repo_gx_hash HOME E subprocess_run
    (git_repo rv) (version rv) (gx_hash rv) w
  = (Return (found_version, found_commit), w1) →
  update_repo HOME E subprocess_run repr_str rv w
  = match found_version, found_commit with
    | Some v, _ =>
        (Return (),
         after_run subprocess_run (go_get_cmd (git_repo rv) v)
           (after_print ("updating git_repo=" +:+ git_repo rv +:+
                         " with version=" +:+ v +:+ " ...") w1))
    | None, Some c =>
        (Return (),
         after_run subprocess_run (go_get_cmd (git_repo rv) c)
           (after_print ("updating git_repo=" +:+ git_repo rv +:+
                         " with commit=" +:+ c +:+ " ...") w1))
    | None, None =>
        (Return (),
         after_debug ("failed to update the repo " +:+ git_repo rv)
           (after_print ("failed to update repo_version=" +:+
                         repr_RepoVersion repr_str rv) w1))
    end.
Proof.
  intros Hparse. destruct rv as [h r raw p]. simpl in *.
  unfold update_repo, io_bind at 1. rewrite Hparse.
  unfold try_except_ValueError. rewrite update_repo_to_go_mod_value.
  by destruct found_version, found_commit.
Qed.

(** The loop body, when the resolution of the dependency raised. *)
Lemma update_repo_unresolved (rv : RepoVersion) (e : exception)
    (w w1 : world E) :
  parse_version_from_repo_gx_hash HOME E subprocess_run
    (git_repo rv) (version rv) (gx_hash rv) w = (Raise e, w1) →
  update_repo HOME E subprocess_run repr_str rv w = (Raise e, w1).
Proof.
  intros Hparse. destruct rv as [h r raw p]. simpl in *.
  unfold update_repo, io_bind at 1. by rewrite Hparse.
Qed.

Lemma for_each_cons {A} (body : A → IO E unit) (x : A) (l : list A)
    (w : world E) :
  for_each body (x :: l) w =
  match body x w with
  | (Return _, w') => for_each body l w'
  | (Raise e, w') => (Raise e, w')
  end.
Proof. reflexivity. Qed.

(** C2: in the loop of [update_repos], a dependency whose resolution found
    a version has that version passed to [go get], also when a commit was
    found; one with a commit only has the commit passed; for one with
    neither no command is run, the failure is printed and logged; in every
    case the loop goes on with the next dependency. *)
Theorem update_policy (rv : RepoVersion) (rest : list RepoVersion)
    (found_version found_commit : option string) (w w1 : world E) :
  parse_version_from_repo_gx_hash HOME E subprocess_run
    (git_repo rv) (version rv) (gx_hash rv) w
  = (Return (found_version, found_commit), w1) →
  let loop := for_each (update_repo HOME E subprocess_run repr_str) in
  (∀ v, found_version = Some v →
     loop (rv :: rest) w =
     loop rest
       (after_run subprocess_run (go_get_cmd (git_repo rv) v)
          (after_print ("updating git_repo=" +:+ git_repo rv +:+
                        " with version=" +:+ v +:+ " ...") w1))) ∧
  (∀ c, found_version = None → found_commit = Some c →
     loop (rv :: rest) w =
     loop rest
       (after_run subprocess_run (go_get_cmd (git_repo rv) c)
          (after_print ("updating git_repo=" +:+ git_repo rv +:+
                        " with commit=" +:+ c +:+ " ...") w1))) ∧
  (found_version = None → found_commit = None →
     let w2 :=
       after_debug ("failed to update the repo " +:+ git_repo rv)
         (after_print ("failed to update repo_version=" +:+
                       repr_RepoVersion repr_str rv) w1) in
     loop (rv :: rest) w = loop rest w2 ∧ commands w2 = commands w1).
Proof.
  intros Hparse loop. unfold loop. rewrite !for_each_cons.
  rewrite (update_repo_resolved _ _ _ _ _ Hparse).
  split; [|split].
  - by intros v ->.
  - by intros c -> ->.
  - by intros -> ->.
Qed.

(** C3, as the program has it: an exception of the resolution of a
    dependency leaves the loop of [update_repos], so that the dependencies
    after it are not processed; the resolution raises [GetVersionFailure]
    when the tag listing returns a non-zero status and [GetCommitFailure]
    when the search for the commit does. *)
Theorem query_failure_aborts_update (rv : RepoVersion)
    (rest : list RepoVersion) (w : world E) :
  let loop := for_each (update_repo HOME E subprocess_run repr_str) in
  let parse := parse_version_from_repo_gx_hash HOME E subprocess_run
                 (git_repo rv) (version rv) (gx_hash rv) in
  let tag := tag_cmd HOME (git_repo rv) in
  let search := commit_cmd HOME (git_repo rv) (gx_hash rv) in
  (∀ e w1, parse w = (Raise e, w1) → loop (rv :: rest) w = (Raise e, w1)) ∧
  (∀ raw, version rv = Some raw →
     returncode (subprocess_run tag (ext w)).1 ≠ 0%Z →
     parse w =
     (Raise (GetVersionFailure
               ("failed to access the repo: git_repo=" +:+ git_repo rv)),
      after_run subprocess_run tag w)) ∧
  (∀ w1,
     (version rv = None ∧ w1 = w) ∨
     (is_Some (version rv) ∧
      returncode (subprocess_run tag (ext w)).1 = 0%Z ∧
      w1 = after_run subprocess_run tag w) →
     returncode (subprocess_run search (ext w1)).1 ≠ 0%Z →
     parse w =
     (Raise (GetCommitFailure
               ("failed to fetch the commit: gx_hash=" +:+ gx_hash rv +:+
                ", repo=" +:+ git_repo rv)),
      after_run subprocess_run search w1)).
Proof.
  intros loop parse tag search. split; [|split].
  - intros e w1 Hparse. unfold loop. rewrite for_each_cons.
    by rewrite (update_repo_unresolved _ _ _ _ Hparse).
  - intros raw Hraw Hrc. unfold parse. rewrite Hraw, parse_version_present.
    by rewrite decide_True.
  - intros w1 [[Hraw ->]|[[raw Hraw] [Htag ->]]] Hrc; unfold parse.
    + rewrite Hraw, parse_version_absent. by rewrite decide_True.
    + rewrite Hraw, parse_version_present.
      rewrite decide_False by (fold tag; rewrite Htag; naive_solver).
      by rewrite decide_True.
Qed.

(** [update_repos] is its loop, run after the change of directory. *)
Variable os_chdir : string → E → option E.

Lemma update_repos_value (root_repo_path : string)
    (repos : list RepoVersion) (w : world E) :
  update_repos HOME E subprocess_run os_chdir repr_str root_repo_path repos w
  = match os_chdir root_repo_path (ext w) with
    | Some e =>
        for_each (update_repo HOME E subprocess_run repr_str) repos
          {| ext := e; commands := commands w;
             printed := printed w; debug_log := debug_log w |}
    | None => (Raise (FileNotFoundError root_repo_path), w)
    end.
Proof.
  unfold update_repos, io_bind, chdir.
  by destruct (os_chdir root_repo_path (ext w)).
Qed.

End ResolverFacts.

(** ** The walk over the manifests *)

Section WalkFacts.
Variable GOPATH : option string.
Variable fs : gmap string file.
Variable root : string.
Local Arguments String.append !_ _ / : simpl nomatch.

Lemma list_pop_spec {A} (l : list A) :
  match list_pop l with
  | None => l = []
  | Some (x, r) => l = r ++ [x]
  end.
Proof.
  induction l as [|a l IH]; simpl; [done|].
  destruct (list_pop l) as [[y r]|]; by subst.
Qed.

Lemma append_inj_l (a b s : string) : a +:+ s = b +:+ s → a = b.
Proof.
  revert b. induction a as [|x a IH]; intros [|y b] Hab; simpl in Hab.
  - done.
  - apply (f_equal String.length) in Hab. simpl in Hab.
    rewrite len_append in Hab. lia.
  - apply (f_equal String.length) in Hab. simpl in Hab.
    rewrite len_append in Hab. lia.
  - injection Hab as -> Hab. f_equal. by apply IH.
Qed.

#[local] Instance package_file_inj : Inj (=) (=) package_file.
Proof. intros a b Hab. by apply append_inj_l in Hab. Qed.

Lemma enqueue_deps_length (l : list dep_info) (q q' : list string) :
  enqueue_deps GOPATH l q = Return q' → length q' = length q + length l.
Proof.
  revert q. induction l as [|d l IH]; intros q; simpl.
  - intros [= <-]. lia.
  - destruct (d_name d); simpl; [|done].
    destruct (d_hash d); simpl; [|done].
    intros Hq%IH. rewrite length_app in Hq. simpl in Hq. lia.
Qed.

Lemma files_weight_delete (m : gmap string file) (k : string) (f : file) :
  m !! k = Some f →
  files_weight m = file_weight f + files_weight (delete k m).
Proof.
  intros Hk. unfold files_weight.
  by rewrite <- (map_to_list_delete m k f Hk).
Qed.

(** A visit that returns read a manifest, marked the path, logged the file
    and added the dependencies of the manifest to the work list and, for a
    path that is not the root, one record to [deps]. *)
Lemma visit_Return (p : string) (st st' : walk_state) :
  visit GOPATH fs root p st = Return st' →
  ∃ info,
    fs !! package_file p = Some (JSON info) ∧
    visited_repos st' = visited_repos st ∪ {[p]} ∧
    opened st' = opened st ++ [package_file p] ∧
    length (queue st')
    = length (queue st) + length (default [] (gxDependencies info)) ∧
    ((p = root ∧ deps st' = deps st) ∨
     (p ≠ root ∧
      ∃ rv, make_repo_version GOPATH p info = Return rv ∧
            deps st' = deps st ++ [rv])).
Proof.
  unfold visit, load_json.
  destruct (fs !! package_file p) as [[|info]|] eqn:Hfs; simpl; try done.
  intros Hvisit. exists info. split; [done|].
  assert (∃ q', match gxDependencies info with
                | Some l => enqueue_deps GOPATH l (queue st)
                | None => Return (queue st)
                end = Return q' ∧
                length q'
                = length (queue st)
                  + length (default [] (gxDependencies info)))
    as (q' & Hq' & Hlen).
  { destruct (gxDependencies info) as [l|]; simpl in *.
    - destruct (enqueue_deps GOPATH l (queue st)) as [q'|] eqn:Hq; [|done].
      exists q'. split; [done|]. by apply enqueue_deps_length.
    - eexists. split; [done|]. lia. }
  rewrite Hq' in Hvisit. simpl in Hvisit.
  case_decide as Hroot.
  - destruct (make_repo_version GOPATH p info) as [rv|] eqn:Hrv; [|done].
    simpl in Hvisit. injection Hvisit as <-. simpl.
    repeat split; try done. right. eauto.
  - injection Hvisit as <-. simpl.
    repeat split; try done. left. split; [|done].
    by destruct (decide (p = root)).
Qed.

(** A visit that raises failed to load the manifest, or loaded it and
    raised later. *)
Lemma visit_Raise (p : string) (st : walk_state) (e : exception) :
  visit GOPATH fs root p st = Raise e →
  load_json fs (package_file p) = Raise e ∨ loads fs (package_file p).
Proof.
  unfold visit, load_json, loads.
  destruct (fs !! package_file p) as [[|info]|]; simpl.
  - intros [= <-]. by left.
  - intros _. right. by exists info.
  - intros [= <-]. by left.
Qed.

(** The rule of the loop: [P] holds of the states, [Q] of the outcome. *)
Lemma walk_loop_rule (P : walk_state → Prop) (Q : walk_outcome → Prop) :
  (∀ st, P st → queue st = [] → Q (Finished st)) →
  (∀ st p q,
     P st → queue st = q ++ [p] → p ∈ visited_repos st →
     P (with_queue st q)) →
  (∀ st p q st',
     P st → queue st = q ++ [p] → p ∉ visited_repos st →
     visit GOPATH fs root p (with_queue st q) = Return st' → P st') →
  (∀ st p q e,
     P st → queue st = q ++ [p] → p ∉ visited_repos st →
     visit GOPATH fs root p (with_queue st q) = Raise e →
     Q (Raised e (opened st ++ [package_file p]))) →
  ∀ fuel st out,
    P st → walk_loop GOPATH fs fuel root st = Some out → Q out.
Proof.
  intros Hend Hskip Hvisit Hraise.
  induction fuel as [|fuel IH]; intros st out HP; simpl; [done|].
  pose proof (list_pop_spec (queue st)) as Hpop.
  destruct (list_pop (queue st)) as [[p q]|].
  - fold (with_queue st q). case_decide as Hin.
    + apply IH. by eapply Hskip.
    + destruct (visit GOPATH fs root p (with_queue st q)) as [st'|e] eqn:Hv.
      * apply IH. by eapply Hvisit.
      * intros [= <-]. by eapply Hraise.
  - intros [= <-]. by apply Hend.
Qed.

(** More fuel does not change the outcome. *)
Lemma walk_loop_fuel_mono (fuel fuel' : nat) (st : walk_state)
    (out : walk_outcome) :
  walk_loop GOPATH fs fuel root st = Some out → fuel ≤ fuel' →
  walk_loop GOPATH fs fuel' root st = Some out.
Proof.
  revert fuel' st. induction fuel as [|fuel IH]; intros fuel' st; [done|].
  destruct fuel' as [|fuel']; [lia|]. simpl. intros Hloop Hle.
  destruct (list_pop (queue st)) as [[p q]|]; [|done].
  fold (with_queue st q) in *. case_decide.
  - apply IH; [done|lia].
  - destruct (visit GOPATH fs root p (with_queue st q)); [|done].
    apply IH; [done|lia].
Qed.

(** The loop ends when the fuel exceeds the weight of the files not read
    yet plus the length of the work list. *)
Lemma walk_loop_total (fuel : nat) (st : walk_state)
    (unread : gmap string file) :
  (∀ p f, p ∉ visited_repos st → fs !! package_file p = Some f →
          unread !! package_file p = Some f) →
  files_weight unread + length (queue st) < fuel →
  is_Some (walk_loop GOPATH fs fuel root st).
Proof.
  revert st unread. induction fuel as [|fuel IH]; intros st unread Hun Hlt.
  { lia. }
  simpl. pose proof (list_pop_spec (queue st)) as Hpop.
  destruct (list_pop (queue st)) as [[p q]|]; [|by eexists].
  assert (length (queue st) = S (length q)) as Hlen.
  { rewrite Hpop, length_app. simpl. lia. }
  fold (with_queue st q). case_decide as Hin.
  - apply (IH _ unread); [done|]. simpl. lia.
  - destruct (visit GOPATH fs root p (with_queue st q)) as [st'|e] eqn:Hv;
      [|by eexists].
    apply visit_Return in Hv as (info & Hfs & Hvis & _ & Hq & _).
    simpl in Hq.
    apply (IH _ (delete (package_file p) unread)).
    + intros p' f Hp' Hf.
      rewrite Hvis, elem_of_union, elem_of_singleton in Hp'. simpl in Hp'.
      rewrite lookup_delete_ne.
      * apply Hun; [tauto|done].
      * intros Heq%(inj package_file). subst p'. tauto.
    + rewrite (files_weight_delete unread (package_file p) (JSON info)) in Hlt
        by (by apply Hun).
      simpl in Hlt. lia.
Qed.

Lemma walk_returns : ∃ out, walk GOPATH fs root = Some out.
Proof.
  apply (walk_loop_total _ _ fs); [done|].
  unfold walk_fuel. simpl. lia.
Qed.

(** The invariant of the loop. *)
Lemma walk_inv_init : walk_inv GOPATH fs root (walk_init root) [].
Proof.
  unfold walk_inv. simpl. repeat split; try constructor.
  - by intros ?%elem_of_empty.
  - by intros ?%elem_of_nil.
Qed.

Lemma walk_inv_visit (st st' : walk_state) (order : list string)
    (p : string) (q : list string) :
  walk_inv GOPATH fs root st order → p ∉ visited_repos st →
  visit GOPATH fs root p (with_queue st q) = Return st' →
  walk_inv GOPATH fs root st' (order ++ [p]).
Proof.
  intros (Hnd & Hop & Hvis & Hloads & Hdeps) Hp Hv.
  apply visit_Return in Hv as (info & Hfs & Hvis' & Hop' & _ & Hd).
  simpl in *. unfold walk_inv. split; [|split; [|split; [|split]]].
  - apply NoDup_app. split; [done|]. split; [|apply NoDup_singleton].
    intros x Hx ->%list_elem_of_singleton. by apply Hp, Hvis.
  - by rewrite Hop', Hop, fmap_app.
  - intros x. rewrite Hvis', elem_of_union, elem_of_singleton, Hvis.
    rewrite elem_of_app, list_elem_of_singleton. done.
  - apply Forall_app. split; [done|]. constructor; [by exists info|done].
  - rewrite filter_app.
    destruct Hd as [[-> ->]|(Hne & rv & Hrv & ->)].
    + rewrite filter_cons_False, filter_nil, app_nil_r
        by (intros Hne; by apply Hne).
      done.
    + rewrite filter_cons_True, filter_nil by done.
      apply Forall2_app; [done|]. constructor; [|done]. by exists info.
Qed.

(** What holds of the outcome of the loop. *)
Lemma walk_outcome_spec (fuel : nat) (out : walk_outcome) :
  walk_loop GOPATH fs fuel root (walk_init root) = Some out →
  walk_post GOPATH fs root out.
Proof.
  apply (walk_loop_rule (λ st, ∃ order, walk_inv GOPATH fs root st order)
           (walk_post GOPATH fs root)).
  - intros st Hinv Hq. by split.
  - intros st p q [order Hinv] _ _. by exists order.
  - intros st p q st' [order Hinv] _ Hp Hv. exists (order ++ [p]).
    by eapply walk_inv_visit.
  - intros st p q e [order Hinv] _ Hp Hv. exists st, order, p.
    split; [done|]. destruct Hinv as (_ & Hop & Hvis & _).
    split; [by rewrite <- Hvis|].
    split; [by rewrite fmap_app, Hop|].
    by eapply visit_Raise.
  - exists []. apply walk_inv_init.
Qed.


Lemma get_repo_deps_of_walk (out : walk_outcome) :
  walk GOPATH fs root = Some out →
  get_repo_deps GOPATH fs root =
  Some match out with
       | Finished st => Return (filter is_github (deps st))
       | Raised e _ => Raise e
       end.
Proof. unfold get_repo_deps. intros ->. by destruct out. Qed.


(** C7: when the loop runs to its end, [get_repo_deps] returns the records
    of [deps] whose repository contains [github.com], in order, and leaves
    out the others without raising. *)
Theorem only_github_deps_returned (st : walk_state) :
  walk GOPATH fs root = Some (Finished st) →
  ∃ github_deps,
    get_repo_deps GOPATH fs root = Some (Return github_deps) ∧
    github_deps = filter is_github (deps st) ∧
    Forall (λ rv, ∃ a b, git_repo rv = a +:+ "github.com" +:+ b)
      github_deps ∧
    ∀ rv, rv ∈ deps st →
      ((∃ a b, git_repo rv = a +:+ "github.com" +:+ b) → rv ∈ github_deps) ∧
      ((¬ ∃ a b, git_repo rv = a +:+ "github.com" +:+ b) →
       rv ∉ github_deps).
Proof.
  intros Hwalk. exists (filter is_github (deps st)).
  split; [by rewrite (get_repo_deps_of_walk _ Hwalk)|]. split; [done|].
  split.
  - apply Forall_forall. intros rv [Hgh _]%list_elem_of_filter.
    by apply contains_spec.
  - intros rv Hrv. split.
    + intros Hsub. apply list_elem_of_filter. split; [|done].
      by apply contains_spec.
    + intros Hsub [Hgh _]%list_elem_of_filter. by apply Hsub, contains_spec.
Qed.

(** C8: when a file that the walk opened is missing or is not a manifest,
    [get_repo_deps] raises the error of that file and returns no list. *)
Theorem manifest_failure_is_fatal (out : walk_outcome) (path : string) :
  walk GOPATH fs root = Some out →
  path ∈ opened_of out →
  fs !! path = None ∨ fs !! path = Some NotJSON →
  ∃ e,
    (e = FileNotFoundError path ∨ e = JSONDecodeError path) ∧
    load_json fs path = Raise e ∧
    get_repo_deps GOPATH fs root = Some (Raise e).
Proof.
  intros Hwalk Hpath Hbad.
  assert (¬ loads fs path) as Hnot.
  { intros [info Hinfo]. destruct Hbad as [Hbad|Hbad]; congruence. }
  pose proof (walk_outcome_spec _ _ Hwalk) as Hpost.
  rewrite (get_repo_deps_of_walk _ Hwalk).
  destruct out as [st|e opened_files]; simpl in *.
  - destruct Hpost as (_ & order & _ & Hop & _ & Hloads & _).
    rewrite Hop in Hpath. apply list_elem_of_fmap in Hpath as (p & -> & Hp).
    rewrite Forall_forall in Hloads. by destruct Hnot; apply Hloads.
  - destruct Hpost as (st & order & p & (_ & _ & _ & Hloads & _) & _ & -> & He).
    apply list_elem_of_fmap in Hpath as (p' & -> & Hp').
    apply elem_of_app in Hp' as [Hp'|Hp'].
    + rewrite Forall_forall in Hloads. by destruct Hnot; apply Hloads.
    + apply list_elem_of_singleton in Hp' as ->.
      destruct He as [He|He]; [|done]. exists e. split; [|done].
      unfold load_json in He.
      destruct Hbad as [Hbad|Hbad]; rewrite Hbad in He; injection He as <-;
        [by left|by right].
Qed.

End WalkFacts.

(** ** The properties on the example inputs *)

(** The walk of the example with a cycle and a shared dependency: every
    file is opened once, and [c], shared by [a] and [b], gives one
    record. *)
Lemma example_walk :
  walk example_GOPATH example_fs "/r" = Some (Finished example_final_state).
Proof. vm_compute. reflexivity. Qed.

Lemma example_get_repo_deps :
  get_repo_deps example_GOPATH example_fs "/r"
  = Some (Return [example_rv_c; example_rv_a]).
Proof. vm_compute. reflexivity. Qed.

Lemma extract_gx_hash_make_gx_path_witness :
  extract_gx_hash example_GOPATH (make_gx_path example_GOPATH "H1" "a")
  = Return ("H1", "a").
Proof.
  apply (extract_gx_hash_make_gx_path example_GOPATH "H1" "a");
    [discriminate | discriminate | reflexivity | reflexivity].
Defined.

Lemma only_github_deps_returned_witness :
  ∃ github_deps,
    get_repo_deps example_GOPATH example_fs "/r" = Some (Return github_deps) ∧
    github_deps = filter is_github (deps example_final_state) ∧
    Forall (λ rv, ∃ a b, git_repo rv = a +:+ "github.com" +:+ b)
      github_deps ∧
    ∀ rv, rv ∈ deps example_final_state →
      ((∃ a b, git_repo rv = a +:+ "github.com" +:+ b) → rv ∈ github_deps) ∧
      ((¬ ∃ a b, git_repo rv = a +:+ "github.com" +:+ b) →
       rv ∉ github_deps).
Proof.
  apply (only_github_deps_returned example_GOPATH example_fs "/r"
           example_final_state).
  vm_compute. reflexivity.
Defined.

Lemma manifest_failure_is_fatal_witness :
  ∃ e,
    (e = FileNotFoundError "/go/src/gx/ipfs/H1/a/package.json" ∨
     e = JSONDecodeError "/go/src/gx/ipfs/H1/a/package.json") ∧
    load_json example_fs_missing "/go/src/gx/ipfs/H1/a/package.json"
    = Raise e ∧
    get_repo_deps example_GOPATH example_fs_missing "/r" = Some (Raise e).
Proof.
  apply (manifest_failure_is_fatal example_GOPATH example_fs_missing "/r"
           (Raised (FileNotFoundError "/go/src/gx/ipfs/H1/a/package.json")
              ["/r/package.json"; "/go/src/gx/ipfs/H1/a/package.json"])).
  - vm_compute. reflexivity.
  - simpl. apply list_elem_of_further, list_elem_of_here.
  - left. vm_compute. reflexivity.
Defined.

(** On the example repositories both a version and a commit are found for
    [a], and the version is the one passed to [go get]. *)
Lemma update_policy_witness :
  let w1 :=
    after_run example_run (commit_cmd example_HOME "github.com/x/a" "H1")
      (after_run example_run (tag_cmd example_HOME "github.com/x/a")
         example_world) in
  for_each (update_repo example_HOME () example_run example_repr)
    [example_rv_a; example_rv_c] example_world =
  for_each (update_repo example_HOME () example_run example_repr)
    [example_rv_c]
    (after_run example_run (go_get_cmd "github.com/x/a" "v1.0.0")
       (after_print "updating git_repo=github.com/x/a with version=v1.0.0 ..."
          w1)).
Proof.
  intros w1.
  refine (proj1 (update_policy example_HOME () example_run example_repr
                   example_rv_a [example_rv_c] (Some "v1.0.0")
                   (Some "5a13bddfa3a06705681ade8e1d4ea85374b6b12e")
                   example_world w1 _) "v1.0.0" eq_refl).
  vm_compute. reflexivity.
Defined.

(** C3 fails on the program: when git fails on the repository of [a],
    [update_repos] raises [GetVersionFailure] after the one command on [a],
    and [c], which it updates when it is given [c] alone, is not
    processed. *)
Lemma update_repos_query_failure_not_isolated :
  update_repos example_HOME () example_run_failing example_chdir example_repr
    "/r" [example_rv_a; example_rv_c] example_world
  = (Raise (GetVersionFailure
              "failed to access the repo: git_repo=github.com/x/a"),
     {| ext := ();
        commands := [tag_cmd example_HOME "github.com/x/a"];
        printed := []; debug_log := [] |}) ∧
  (update_repos example_HOME () example_run_failing example_chdir example_repr
     "/r" [example_rv_c] example_world).1 = Return () ∧
  ¬ query_failures_isolated.
Proof.
  split; [|split]; [vm_compute; reflexivity..|].
  intros Hisolated.
  destruct (Hisolated example_HOME unit example_run_failing example_chdir
              example_repr "/r" [example_rv_a; example_rv_c] example_world)
    as [w' Hw']; [by eexists|].
  vm_compute in Hw'. discriminate Hw'.
Qed.

(** C4 on the program: a first field of 40 characters that starts with
    [0x] is accepted by [int] in base 16 and returned as the commit,
    although it is not made of hexadecimal digits. *)
Theorem get_commit_from_repo_returns_stray_token :
  (get_commit_from_repo example_HOME () example_run_stray
     "github.com/x/c" "H3" example_world).1
  = Return (Some "0x5a13bddfa3a06705681ade8e1d4ea85374b6b1") ∧
  PyStr.len "0x5a13bddfa3a06705681ade8e1d4ea85374b6b1" = 40 ∧
  PyStr.all_hex "0x5a13bddfa3a06705681ade8e1d4ea85374b6b1" = false ∧
  PyStr.int16 "0x5a13bddfa3a06705681ade8e1d4ea85374b6b1"
  = Some 0x5a13bddfa3a06705681ade8e1d4ea85374b6b1%Z ∧
  ¬ (∀ output token,
       commit_of_output output = Some token → PyStr.all_hex token = true).
Proof.
  repeat split; [vm_compute; reflexivity..|].
  intros Hhex.
  specialize (Hhex "0x5a13bddfa3a06705681ade8e1d4ea85374b6b1:package.json:H"
                   "0x5a13bddfa3a06705681ade8e1d4ea85374b6b1" eq_refl).
  vm_compute in Hhex. discriminate Hhex.
Qed.

(** * Further properties of the program *)

(** ** More facts about the string operations *)

Section PyStrMoreFacts.
Import PyStr.
Local Arguments String.append !_ _ / : simpl nomatch.

Lemma count_append (c : ascii) (a b : string) :
  count c (a +:+ b) = count c a + count c b.
Proof. induction a as [|x a IH]; simpl; [done|]. rewrite IH. lia. Qed.


Lemma join_cons_cons (sep x y : string) (l : list string) :
  join sep (x :: y :: l) = x +:+ sep +:+ join sep (y :: l).
Proof. done. Qed.

(** What is joined from the first fields starts the join of all. *)
Lemma join_take_prefix (sep : string) (k : nat) (l : list string) :
  ∃ t, join sep l = join sep (take k l) +:+ t.
Proof.
  revert k. induction l as [|x l IH]; intros k.
  { exists "". by destruct k. }
  destruct k as [|k]; [by exists (join sep (x :: l))|].
  destruct l as [|y l].
  { exists "". simpl. by rewrite take_nil, append_nil_r. }
  destruct (IH k) as [t Ht]. rewrite join_cons_cons, Ht.
  destruct k as [|k].
  - simpl. exists (sep +:+ t). done.
  - exists t. change (take (S (S k)) (x :: y :: l))
      with (x :: y :: take k l).
    rewrite join_cons_cons.
    change (take (S k) (y :: l)) with (y :: take k l).
    by rewrite !append_assoc.
Qed.

(** Splitting what was joined from fields without the separator gives the
    fields back. *)
Lemma split_join (sep : ascii) (l : list string) :
  l ≠ [] → Forall (free_of sep) l → split sep (join (String sep "") l) = l.
Proof.
  induction l as [|x l IH]; [done|]. intros _ Hfree.
  apply Forall_cons in Hfree as [Hx Hl].
  destruct l as [|y l]; [by apply split_free|].
  rewrite join_cons_cons, split_append by done. f_equal. by apply IH.
Qed.

Lemma count_join (sep : ascii) (l : list string) :
  Forall (free_of sep) l →
  count sep (join (String sep "") l) = pred (length l).
Proof.
  induction l as [|x l IH]; [done|]. intros Hfree.
  apply Forall_cons in Hfree as [Hx Hl].
  destruct l as [|y l]; [done|].
  rewrite join_cons_cons, !count_append, IH by done.
  unfold free_of in Hx. rewrite Hx. simpl. by rewrite decide_True.
Qed.


End PyStrMoreFacts.

(** ** More on the identifier codec *)

Section CodecMoreFacts.
Import PyStr.
Variable GOPATH : option string.

(** The fields of what follows the prefix in a path made by
    [make_gx_path]: there are two or more. *)
Lemma make_gx_path_fields (gx_hash repo_name : string) :
  ∃ a b rest, split "/" (gx_hash +:+ "/" +:+ repo_name) = a :: b :: rest.
Proof.
  pose proof (split_length "/" (gx_hash +:+ "/" +:+ repo_name)) as Hlen.
  rewrite !count_append in Hlen.
  destruct (split "/" (gx_hash +:+ "/" +:+ repo_name)) as [|a [|b rest]];
    simpl in Hlen; [lia..|].
  by exists a, b, rest.
Qed.

Lemma extract_gx_hash_make_gx_path_Return (gx_hash repo_name : string) :
  ∃ fields,
    extract_gx_hash GOPATH (make_gx_path GOPATH gx_hash repo_name)
    = Return fields.
Proof.
  unfold extract_gx_hash.
  rewrite make_gx_path_startswith, make_gx_path_tail. simpl negb. cbv iota.
  destruct (make_gx_path_fields gx_hash repo_name) as (a & b & rest & ->).
  by eexists.
Qed.

(** X1: decoding a path made by [make_gx_path] never raises, whatever the
    hash and the name: it gives the first two fields of what follows the
    prefix. *)
Theorem extract_gx_hash_make_gx_path_returns (gx_hash repo_name : string) :
  ∃ a b rest,
    split "/" (gx_hash +:+ "/" +:+ repo_name) = a :: b :: rest ∧
    extract_gx_hash GOPATH (make_gx_path GOPATH gx_hash repo_name)
    = Return (a, b).
Proof.
  destruct (make_gx_path_fields gx_hash repo_name) as (a & b & rest & Hsplit).
  exists a, b, rest. split; [done|].
  unfold extract_gx_hash.
  rewrite make_gx_path_startswith, make_gx_path_tail. simpl negb. cbv iota.
  by rewrite Hsplit.
Qed.

(** X2: the three cases of [extract_gx_hash]: a path that does not start
    with the prefix and a path with no slash after the prefix raise
    [ValueError]; every other path gives the first two fields of what
    follows the prefix and the character after it. *)
Theorem extract_gx_hash_cases (gx_path : string) :
  let tail := drop (len (GX_PREFIX GOPATH) + 1) gx_path in
  (startswith gx_path (GX_PREFIX GOPATH) = false →
   extract_gx_hash GOPATH gx_path
   = Raise (ValueError ("gx_path=" +:+ gx_path +:+
                        " should have the preifx " +:+ GX_PREFIX GOPATH))) ∧
  (startswith gx_path (GX_PREFIX GOPATH) = true → count "/" tail = 0 →
   extract_gx_hash GOPATH gx_path
   = Raise (ValueError ("malform gx_path=" +:+ gx_path))) ∧
  (startswith gx_path (GX_PREFIX GOPATH) = true → 1 ≤ count "/" tail →
   ∃ a b rest,
     split "/" tail = a :: b :: rest ∧
     extract_gx_hash GOPATH gx_path = Return (a, b)).
Proof.
  intros tail. unfold extract_gx_hash. fold tail.
  pose proof (split_length "/" tail) as Hlen.
  split; [|split].
  - by intros ->.
  - intros -> Hcount. simpl negb. cbv iota.
    rewrite Hlen, Hcount. done.
  - intros -> Hcount. simpl negb. cbv iota.
    destruct (split "/" tail) as [|a [|b rest]]; simpl in Hlen; [lia..|].
    by exists a, b, rest.
Qed.

Lemma drop_prefix_char (p : string) (c : ascii) (t : string) :
  drop (len p + 1) (p +:+ String c t) = t.
Proof. induction p as [|x p IH]; simpl; [done|apply IH]. Qed.

Lemma drop_prefix_over (p : string) : drop (len p + 1) (p +:+ "") = "".
Proof. induction p as [|x p IH]; simpl; [done|apply IH]. Qed.

(** X3: the paths that [extract_gx_hash] decodes to a hash and a name are
    exactly those made of the prefix, one character whatever it is, and
    the hash, the name and any further fields joined by slashes: the
    character after the prefix is not checked and the fields after the
    name are ignored. *)
Theorem extract_gx_hash_Return_iff (gx_path gx_hash repo_name : string) :
  extract_gx_hash GOPATH gx_path = Return (gx_hash, repo_name) ↔
  ∃ c rest,
    gx_path = GX_PREFIX GOPATH +:+
              String c (join "/" (gx_hash :: repo_name :: rest)) ∧
    Forall (free_of "/") (gx_hash :: repo_name :: rest).
Proof.
  unfold extract_gx_hash. split.
  - destruct (startswith gx_path (GX_PREFIX GOPATH)) eqn:Hsw; [|done].
    apply startswith_spec in Hsw as [t ->]. simpl negb. cbv iota.
    destruct t as [|c tail].
    { by rewrite drop_prefix_over. }
    rewrite drop_prefix_char.
    pose proof (join_split "/" tail) as Hjoin.
    pose proof (split_sep_free "/" tail) as Hfree.
    destruct (split "/" tail) as [|a [|b rest]]; [done..|].
    intros Hab. simpl in Hab. injection Hab as <- <-.
    exists c, rest. by rewrite Hjoin.
  - intros (c & rest & -> & Hfree).
    rewrite startswith_append. simpl negb. cbv iota.
    rewrite drop_prefix_char, split_join by done. done.
Qed.

End CodecMoreFacts.

(** ** More on the repository of an import path *)

Section DvcsimportFacts.
Import PyStr.

Lemma dvcsimport_fields (dvcsimport_path : string) :
  take 3 (split "/" dvcsimport_path) ≠ [] ∧
  Forall (free_of "/") (take 3 (split "/" dvcsimport_path)).
Proof.
  split.
  - destruct (split_cons "/" dvcsimport_path) as (w & ws & ->). done.
  - apply Forall_take, split_sep_free.
Qed.

(** X4: [_dvcsimport_to_git_repo] gives a string that starts the import
    path and has at most two slashes; it changes nothing in a path with at
    most two slashes, and nothing more when applied twice. *)
Theorem dvcsimport_to_git_repo_prefix (dvcsimport_path : string) :
  let git_repo := _dvcsimport_to_git_repo dvcsimport_path in
  startswith dvcsimport_path git_repo = true ∧
  count "/" git_repo ≤ 2 ∧
  (count "/" dvcsimport_path ≤ 2 → git_repo = dvcsimport_path) ∧
  _dvcsimport_to_git_repo git_repo = git_repo.
Proof.
  intros git_repo. unfold git_repo, _dvcsimport_to_git_repo.
  destruct (dvcsimport_fields dvcsimport_path) as [Hne Hfree].
  split; [|split; [|split]].
  - apply startswith_spec.
    destruct (join_take_prefix "/" 3 (split "/" dvcsimport_path)) as [t Ht].
    rewrite join_split in Ht. by exists t.
  - rewrite count_join by done. rewrite length_take. lia.
  - intros Hcount. rewrite take_ge, join_split; [done|].
    rewrite split_length. lia.
  - rewrite split_join by done. by rewrite take_take.
Qed.

End DvcsimportFacts.

(** ** More on the commit resolver *)

Section CommitMoreFacts.
Import PyStr.
Variable HOME : option string.
Variable E : Type.
Variable subprocess_run : string → E → CompletedProcess * E.

(** A hexadecimal digit is no space, sign, underscore, colon or [x]. *)
Lemma hex_digit_plain (c : ascii) :
  is_Some (hex_digit c) →
  is_space c = false ∧ c ≠ "+"%char ∧ c ≠ "-"%char ∧ c ≠ "_"%char ∧
  c ≠ ":"%char ∧ c ≠ "x"%char ∧ c ≠ "X"%char.
Proof.
  destruct c as [[] [] [] [] [] [] [] []]; vm_compute;
    intros [z Hz]; try discriminate Hz; repeat split; discriminate.
Qed.

Lemma scan_digits_all_hex (s : string) (nd : nat) (acc : Z) :
  all_hex s = true →
  ∃ v, scan_digits false nd acc s = Some (v, nd + len s, EmptyString).
Proof.
  revert nd acc. induction s as [|c s IH]; intros nd acc; simpl.
  - intros _. exists acc. by rewrite Nat.add_0_r.
  - intros [Hc Hs]%andb_true_iff. apply bool_decide_eq_true in Hc.
    destruct (hex_digit_plain c Hc) as (_ & _ & _ & Hus & _).
    rewrite decide_False by done. destruct Hc as [d ->].
    destruct (IH (S nd) (16 * acc + d)%Z Hs) as [v Hv].
    exists v. rewrite Hv. do 3 f_equal. lia.
Qed.

(** [int] in base 16 accepts every string of hexadecimal digits that is
    not empty. *)
Lemma int16_all_hex (s : string) :
  all_hex s = true → s ≠ EmptyString → is_Some (int16 s).
Proof.
  intros Hs Hne. destruct s as [|c s]; [done|].
  pose proof Hs as Hcs. simpl in Hcs.
  apply andb_true_iff in Hcs as [Hc Hs'].
  apply bool_decide_eq_true in Hc.
  destruct (hex_digit_plain c Hc) as (Hsp & Hplus & Hminus & Hus & _).
  unfold int16. simpl lstrip. rewrite Hsp.
  assert (skip_sign (String c s) = (false, String c s)) as ->.
  { destruct c as [[] [] [] [] [] [] [] []]; done. }
  assert (skip_0x (String c s) = String c s) as ->.
  { destruct s as [|x s]; [by destruct c as [[] [] [] [] [] [] [] []]|].
    simpl in Hs'. apply andb_true_iff in Hs' as [Hx _].
    apply bool_decide_eq_true in Hx.
    destruct (hex_digit_plain x Hx) as (_ & _ & _ & _ & _ & Hx1 & Hx2).
    unfold skip_0x. rewrite decide_False by tauto.
    by destruct c as [[] [] [] [] [] [] [] []]. }
  destruct (scan_digits_all_hex (String c s) 0 0%Z Hs) as [v Hv].
  rewrite Hv. simpl.
  destruct c as [[] [] [] [] [] [] [] []];
    try (exfalso; by apply Hus); by exists v.
Qed.

Lemma all_hex_free_of_colon (s : string) :
  all_hex s = true → free_of ":" s.
Proof.
  unfold free_of. induction s as [|c s IH]; simpl; [done|].
  intros [Hc Hs]%andb_true_iff. apply bool_decide_eq_true in Hc.
  destruct (hex_digit_plain c Hc) as (_ & _ & _ & _ & Hcolon & _).
  rewrite decide_False by done. by apply IH.
Qed.

(** X5: a commit id, that is 40 hexadecimal digits, at the start of the
    output of a search that ran, is returned as the commit. *)
Theorem get_commit_from_repo_accepts_commit_id
    (git_repo gx_hash commit rest : string) (w : world E) :
  let res := (subprocess_run (commit_cmd HOME git_repo gx_hash) (ext w)).1 in
  returncode res = 0%Z →
  stdout res = commit +:+ ":" +:+ rest →
  all_hex commit = true → len commit = 40 →
  (get_commit_from_repo HOME E subprocess_run git_repo gx_hash w).1
  = Return (Some commit).
Proof.
  intros res Hrc Hout Hhex Hlen.
  rewrite get_commit_from_repo_value. simpl. fold res.
  rewrite decide_False by (rewrite Hrc; naive_solver).
  f_equal. apply (commit_of_output_Some E subprocess_run). rewrite Hout.
  split; [|split; [|done]].
  - pose proof (split_append ":" commit rest (all_hex_free_of_colon _ Hhex))
      as Hsplit.
    apply (f_equal (λ l, l !! 0)) in Hsplit.
    rewrite split_lookup_0 in Hsplit. by injection Hsplit.
  - apply int16_all_hex; [done|]. intros ->. done.
Qed.


(** ** More on the update *)

Variable repr_str : string → string.

(** The resolution of a dependency prints nothing, and raises nothing but
    the failures of the two queries. *)
Lemma parse_version_effects (git_repo : string) (raw_version : option string)
    (repo_gx_hash : string) (w : world E) :
  let r := parse_version_from_repo_gx_hash HOME E subprocess_run
             git_repo raw_version repo_gx_hash w in
  printed r.2 = printed w ∧
  (∃ l, commands r.2 = commands w ++ l) ∧
  ∀ e, r.1 = Raise e →
       (∃ msg, e = GetVersionFailure msg) ∨ (∃ msg, e = GetCommitFailure msg).
Proof.
  destruct raw_version as [raw|]; simpl.
  - rewrite parse_version_present.
    case_decide as Htag; [|case_decide as Hcmd]; simpl.
    + split; [done|]. split; [by eexists|]. intros e [= <-]. left. by eexists.
    + split; [done|].
      split; [rewrite <- app_assoc; by eexists|].
      intros e [= <-]. right. by eexists.
    + case_bool_decide; destruct (commit_of_output _); simpl;
        (split; [done|]); (split; [|done]);
        rewrite <- app_assoc; by eexists.
  - rewrite parse_version_absent. simpl.
    split; [done|]. split; [by eexists|].
    case_decide; [|done]. intros e [= <-]. right. by eexists.
Qed.

Lemma update_repo_effects (rv : RepoVersion) (w : world E) :
  let r := update_repo HOME E subprocess_run repr_str rv w in
  (r.1 = Return () → length (printed r.2) = S (length (printed w))) ∧
  (∃ l, commands r.2 = commands w ++ l) ∧
  ∀ e, r.1 = Raise e →
       (∃ msg, e = GetVersionFailure msg) ∨ (∃ msg, e = GetCommitFailure msg).
Proof.
  pose proof (parse_version_effects (git_repo rv) (version rv) (gx_hash rv) w)
    as (Hprinted & [l Hcommands] & Hraise). simpl in *.
  destruct (parse_version_from_repo_gx_hash HOME E subprocess_run
              (git_repo rv) (version rv) (gx_hash rv) w)
    as [[[v c]|e] w1] eqn:Hparse; simpl in *.
  - rewrite (update_repo_resolved HOME E subprocess_run repr_str
               rv v c w w1 Hparse).
    destruct v as [v|]; [|destruct c as [c|]]; simpl;
      rewrite ?length_app, Hprinted, Hcommands; simpl;
      (split; [intros _; lia|]); (split; [|done]);
      rewrite <- ?app_assoc; by eexists.
  - rewrite (update_repo_unresolved HOME E subprocess_run repr_str
               rv e w w1 Hparse). simpl.
    split; [done|]. split; [by eexists|].
    intros e' [= <-]. by apply Hraise.
Qed.

(** The loop of [update_repos] prints one line for each dependency when
    it runs to its end, only adds to the commands run, and no exception
    leaves it but the failures of the two queries. *)
Lemma for_each_update_repo_effects (repos : list RepoVersion) (w : world E) :
  let r := for_each (update_repo HOME E subprocess_run repr_str) repos w in
  (r.1 = Return () →
   length (printed r.2) = length (printed w) + length repos) ∧
  (∃ l, commands r.2 = commands w ++ l) ∧
  ∀ e, r.1 = Raise e →
       (∃ msg, e = GetVersionFailure msg) ∨ (∃ msg, e = GetCommitFailure msg).
Proof.
  revert w. induction repos as [|rv repos IH]; intros w.
  { simpl. split; [intros _; lia|]. split; [|done].
    exists []. by rewrite app_nil_r. }
  cbv zeta. rewrite for_each_cons.
  pose proof (update_repo_effects rv w) as (Hprinted & [l Hl] & Hraise).
  cbv zeta in Hprinted, Hl, Hraise.
  destruct (update_repo HOME E subprocess_run repr_str rv w)
    as [[[]|e] w1]; simpl in Hprinted, Hl, Hraise.
  - destruct (IH w1) as (IHprinted & [l' Hl'] & IHraise).
    split; [|split; [|done]].
    + intros Hret. rewrite (IHprinted Hret), Hprinted by done.
      rewrite length_cons. lia.
    + exists (l ++ l'). by rewrite Hl', Hl, app_assoc.
  - split; [done|]. split; [by exists l|]. done.
Qed.

Variable os_chdir : string → E → option E.

(** X7: [update_repos] prints exactly one line for each dependency when it
    returns; it only adds to the commands run, and runs none when the
    directory cannot be changed; the exceptions that leave it are that of
    the change of directory, [GetVersionFailure] and [GetCommitFailure]:
    a [ValueError] never does. *)
Theorem update_repos_effects (root_repo_path : string)
    (repos : list RepoVersion) (w : world E) :
  let r := update_repos HOME E subprocess_run os_chdir repr_str
             root_repo_path repos w in
  (r.1 = Return () →
   is_Some (os_chdir root_repo_path (ext w)) ∧
   length (printed r.2) = length (printed w) + length repos) ∧
  (∃ l, commands r.2 = commands w ++ l) ∧
  (os_chdir root_repo_path (ext w) = None →
   r = (Raise (FileNotFoundError root_repo_path), w)) ∧
  ∀ e, r.1 = Raise e →
       e = FileNotFoundError root_repo_path ∨
       (∃ msg, e = GetVersionFailure msg) ∨ (∃ msg, e = GetCommitFailure msg).
Proof.
  cbv zeta. rewrite update_repos_value.
  destruct (os_chdir root_repo_path (ext w)) as [e'|]; simpl.
  - pose proof (for_each_update_repo_effects repos
                  {| ext := e'; commands := commands w;
                     printed := printed w; debug_log := debug_log w |})
      as (Hprinted & Hcommands & Hraise).
    cbv zeta in Hprinted, Hcommands, Hraise. simpl in Hprinted, Hcommands.
    split; [|split; [done|split; [done|]]].
    + intros Hret. split; [by eexists|]. by apply Hprinted.
    + intros e He. right. by apply Hraise.
  - split; [done|]. split; [|split; [done|]].
    + exists []. by rewrite app_nil_r.
    + intros e [= <-]. by left.
Qed.

End CommitMoreFacts.

(** ** More on the walk over the manifests *)

Section WalkMoreFacts.
Variable GOPATH : option string.
Variable fs : gmap string file.
Variable root : string.
Local Opaque locate_git_repo.

#[local] Instance package_file_inj' : Inj (=) (=) package_file.
Proof. intros a b Hab. by apply append_inj_l in Hab. Qed.

(** The loop over the entries returns when each of them has a name and a
    hash, with their paths added in order, and raises otherwise. *)
Lemma enqueue_deps_spec (l : list dep_info) (q : list string) :
  match enqueue_deps GOPATH l q with
  | Return q' =>
      Forall (λ dep, is_Some (d_name dep) ∧ is_Some (d_hash dep)) l ∧
      q' = q ++ omap (dep_path GOPATH) l
  | Raise e =>
      ¬ Forall (λ dep, is_Some (d_name dep) ∧ is_Some (d_hash dep)) l
  end.
Proof.
  revert q. induction l as [|d l IH]; intros q; simpl.
  { split; [done|]. by rewrite app_nil_r. }
  unfold dep_path at 1.
  destruct (d_name d) as [dep_name|] eqn:Hn; simpl.
  2:{ intros [[[? Hs] _] _]%Forall_cons. congruence. }
  destruct (d_hash d) as [dep_gx_hash|] eqn:Hh; simpl.
  2:{ intros [[_ [? Hs]] _]%Forall_cons. congruence. }
  specialize (IH (q ++ [make_gx_path GOPATH dep_gx_hash dep_name])).
  destruct (enqueue_deps GOPATH l _) as [q'|e].
  - destruct IH as [Hl ->]. split.
    + constructor; [|done]. rewrite Hn, Hh. split; by eexists.
    + by rewrite <- app_assoc.
  - by intros [_ ?]%Forall_cons.
Qed.

Lemma enqueue_deps_app (l1 l2 : list dep_info) (q : list string) :
  Forall (λ dep, is_Some (d_name dep) ∧ is_Some (d_hash dep)) l1 →
  enqueue_deps GOPATH (l1 ++ l2) q
  = enqueue_deps GOPATH l2 (q ++ omap (dep_path GOPATH) l1).
Proof.
  revert q. induction l1 as [|d l1 IH]; intros q Hl1; simpl.
  { by rewrite app_nil_r. }
  apply Forall_cons in Hl1 as [[[dep_name Hn] [dep_gx_hash Hh]] Hl1].
  unfold dep_path at 1. rewrite Hn, Hh. simpl.
  rewrite IH by done. by rewrite <- app_assoc.
Qed.

(** The record of a package at a path made by [make_gx_path] is made when
    the manifest has [gx] and [dvcsimport], and only then. *)
Lemma make_repo_version_spec (p : string) (info : package_info) :
  (∃ gx_hash repo_name, p = make_gx_path GOPATH gx_hash repo_name) →
  match make_repo_version GOPATH p info with
  | Return rv =>
      ∃ gx_entry, gx info = Some gx_entry ∧ is_Some (dvcsimport gx_entry)
  | Raise e =>
      ¬ ∃ gx_entry, gx info = Some gx_entry ∧ is_Some (dvcsimport gx_entry)
  end.
Proof.
  intros (gx_hash & repo_name & ->). unfold make_repo_version.
  destruct (gx info) as [gx_entry|]; simpl.
  2:{ by intros (? & [=] & _). }
  destruct (dvcsimport gx_entry) as [pkg|] eqn:Hpkg; simpl.
  2:{ intros (? & [= <-] & [? Hsome]). congruence. }
  destruct (extract_gx_hash_make_gx_path_Return GOPATH gx_hash repo_name)
    as [[a b] ->].
  rewrite bind_Return, locate_git_repo_value, bind_Return.
  exists gx_entry. split; [done|]. by eexists.
Qed.

(** A visit returns on a package that has the keys read, and only then. *)
Lemma visit_spec (p : string) (st : walk_state) :
  p = root ∨ (∃ gx_hash repo_name, p = make_gx_path GOPATH gx_hash repo_name) →
  match visit GOPATH fs root p st with
  | Return st' =>
      well_formed fs root p ∧
      visited_repos st' = visited_repos st ∪ {[p]} ∧
      queue st' = queue st ++ omap (dep_path GOPATH) (listed_deps fs p)
  | Raise e => ¬ well_formed fs root p
  end.
Proof.
  intros Hp. unfold visit, load_json, well_formed, listed_deps.
  destruct (fs !! package_file p) as [[|info]|] eqn:Hfs; simpl.
  { by intros (? & [=] & _). }
  2:{ by intros (? & [=] & _). }
  assert (match
            match gxDependencies info with
            | Some l => enqueue_deps GOPATH l (queue st)
            | None => Return (queue st)
            end
          with
          | Return q' =>
              Forall (λ dep, is_Some (d_name dep) ∧ is_Some (d_hash dep))
                (default [] (gxDependencies info)) ∧
              q' = queue st ++
                   omap (dep_path GOPATH) (default [] (gxDependencies info))
          | Raise e =>
              ¬ Forall (λ dep, is_Some (d_name dep) ∧ is_Some (d_hash dep))
                  (default [] (gxDependencies info))
          end) as Hq.
  { destruct (gxDependencies info) as [l|]; simpl.
    - apply enqueue_deps_spec.
    - split; [done|]. by rewrite app_nil_r. }
  destruct (match gxDependencies info with
            | Some l => enqueue_deps GOPATH l (queue st)
            | None => Return (queue st)
            end) as [q'|e]; simpl.
  2:{ intros (info' & [= <-] & Hl & _). by apply Hq. }
  destruct Hq as [Hl ->].
  case_decide as Hroot.
  - destruct Hp as [->|Hp]; [done|].
    pose proof (make_repo_version_spec p info Hp) as Hrv.
    destruct (make_repo_version GOPATH p info) as [rv|e]; simpl.
    + split; [|done]. exists info. split; [done|]. split; [done|]. done.
    + intros (info' & [= <-] & _ & Hgx). by apply Hrv, Hgx.
  - split; [|done]. exists info. split; [done|]. split; [done|].
    intros Hne. by destruct Hroot.
Qed.

(** A package that can be reached is the root or has a path made by
    [make_gx_path]. *)
Lemma reachable_path (p : string) :
  reachable GOPATH fs root p →
  p = root ∨ (∃ gx_hash repo_name, p = make_gx_path GOPATH gx_hash repo_name).
Proof.
  intros [|p' dep dep_gx_path _ _ Hdep]; [by left|]. right.
  unfold dep_path in Hdep.
  destruct (d_name dep) as [dep_name|]; [|done].
  destruct (d_hash dep) as [dep_gx_hash|]; [|done].
  injection Hdep as <-. by eexists _, _.
Qed.

Lemma reach_inv_init : reach_inv GOPATH fs root (walk_init root).
Proof.
  unfold reach_inv. simpl. split; [|split].
  - intros p [Hp|Hp]; [by apply elem_of_empty in Hp|].
    apply list_elem_of_singleton in Hp as ->. constructor.
  - right. by apply list_elem_of_singleton.
  - intros p Hp. by apply elem_of_empty in Hp.
Qed.

Lemma reach_inv_skip (st : walk_state) (p : string) (q : list string) :
  reach_inv GOPATH fs root st → queue st = q ++ [p] → p ∈ visited_repos st →
  reach_inv GOPATH fs root (with_queue st q).
Proof.
  intros (Hreach & Hroot & Hclosed) Hq Hp.
  assert (∀ x, x ∈ visited_repos st ∨ x ∈ queue st →
               x ∈ visited_repos st ∨ x ∈ q) as Hin.
  { intros x [Hx|Hx]; [by left|]. rewrite Hq in Hx.
    apply elem_of_app in Hx as [Hx|Hx]; [by right|].
    apply list_elem_of_singleton in Hx as ->. by left. }
  unfold reach_inv. simpl. split; [|split].
  - intros x [Hx|Hx]; apply Hreach; [by left|].
    right. rewrite Hq. apply elem_of_app. by left.
  - by apply Hin.
  - intros x Hx. destruct (Hclosed x Hx) as [Hwf Hdeps].
    split; [done|]. intros dep dep_gx_path Hdep Hpath.
    by eapply Hin, Hdeps.
Qed.

Lemma reach_inv_visit (st st' : walk_state) (p : string) (q : list string) :
  reach_inv GOPATH fs root st → queue st = q ++ [p] →
  visit GOPATH fs root p (with_queue st q) = Return st' →
  reach_inv GOPATH fs root st'.
Proof.
  intros (Hreach & Hroot & Hclosed) Hq Hv.
  assert (reachable GOPATH fs root p) as Hp.
  { apply Hreach. right. rewrite Hq. apply elem_of_app. right.
    by apply list_elem_of_singleton. }
  pose proof (visit_spec p (with_queue st q) (reachable_path p Hp)) as Hspec.
  rewrite Hv in Hspec. simpl in Hspec. destruct Hspec as (Hwf & Hvis & Hqueue).
  assert (∀ x, x ∈ visited_repos st ∨ x ∈ queue st →
               x ∈ visited_repos st' ∨ x ∈ queue st') as Hin.
  { intros x [Hx|Hx].
    - left. rewrite Hvis. apply elem_of_union. by left.
    - rewrite Hq in Hx. apply elem_of_app in Hx as [Hx|Hx].
      + right. rewrite Hqueue. apply elem_of_app. by left.
      + apply list_elem_of_singleton in Hx as ->.
        left. rewrite Hvis. apply elem_of_union. right.
        by apply elem_of_singleton. }
  unfold reach_inv. split; [|split].
  - intros x [Hx|Hx].
    + rewrite Hvis in Hx. apply elem_of_union in Hx as [Hx|Hx].
      * apply Hreach. by left.
      * by apply elem_of_singleton in Hx as ->.
    + rewrite Hqueue in Hx. apply elem_of_app in Hx as [Hx|Hx].
      * apply Hreach. right. rewrite Hq. apply elem_of_app. by left.
      * apply list_elem_of_omap in Hx as (dep & Hdep & Hpath).
        by eapply reachable_dep.
  - by apply Hin.
  - intros x Hx. rewrite Hvis in Hx. apply elem_of_union in Hx as [Hx|Hx].
    + destruct (Hclosed x Hx) as [Hwf' Hdeps]. split; [done|].
      intros dep dep_gx_path Hdep Hpath. by eapply Hin, Hdeps.
    + apply elem_of_singleton in Hx as ->. split; [done|].
      intros dep dep_gx_path Hdep Hpath. right. rewrite Hqueue.
      apply elem_of_app. right. apply list_elem_of_omap. by exists dep.
Qed.

(** When the work list is empty, what was visited is what can be
    reached. *)
Lemma reach_inv_end (st : walk_state) :
  reach_inv GOPATH fs root st → queue st = [] →
  ∀ p, p ∈ visited_repos st ↔ reachable GOPATH fs root p.
Proof.
  intros (Hreach & Hroot & Hclosed) Hq p. split.
  - intros Hp. apply Hreach. by left.
  - induction 1 as [|p dep dep_gx_path _ IH Hdep Hpath].
    + destruct Hroot as [Hr|Hr]; [done|].
      rewrite Hq in Hr. by apply elem_of_nil in Hr.
    + destruct (Hclosed p IH) as [_ Hdeps].
      destruct (Hdeps dep dep_gx_path Hdep Hpath) as [Hin|Hin]; [done|].
      rewrite Hq in Hin. by apply elem_of_nil in Hin.
Qed.

(** The outcome of the walk and the packages that can be reached: the walk
    runs to its end when they all have the keys read, and stops at one
    that has not otherwise. *)
Lemma walk_reach_spec (fuel : nat) (out : walk_outcome) :
  walk_loop GOPATH fs fuel root (walk_init root) = Some out →
  reach_post GOPATH fs root out.
Proof.
  apply (walk_loop_rule GOPATH fs root
           (reach_inv GOPATH fs root) (reach_post GOPATH fs root)).
  - intros st Hinv Hq. pose proof (reach_inv_end st Hinv Hq) as Hvis.
    split; [|done]. intros p Hp. apply Hvis in Hp.
    destruct Hinv as (_ & _ & Hclosed). by apply Hclosed.
  - intros st p q Hinv Hq Hp. by eapply reach_inv_skip.
  - intros st p q st' Hinv Hq _ Hv. by eapply reach_inv_visit.
  - intros st p q e Hinv Hq _ Hv.
    assert (reachable GOPATH fs root p) as Hp.
    { destruct Hinv as (Hreach & _). apply Hreach. right. rewrite Hq.
      apply elem_of_app. right. by apply list_elem_of_singleton. }
    exists p. split; [done|].
    pose proof (visit_spec p (with_queue st q) (reachable_path p Hp)) as Hspec.
    by rewrite Hv in Hspec.
  - apply reach_inv_init.
Qed.

(** X8: the files that the walk opens are manifests of packages that can
    be reached from the root, and when the walk runs to its end the
    manifest of every such package was opened. *)
Theorem walk_opens_reachable (out : walk_outcome) :
  walk GOPATH fs root = Some out →
  (∀ f, f ∈ opened_of out →
        ∃ p, reachable GOPATH fs root p ∧ f = package_file p) ∧
  (∀ st, out = Finished st →
         ∀ p, reachable GOPATH fs root p → package_file p ∈ opened st).
Proof.
  intros Hwalk.
  pose (Q := λ out : walk_outcome,
          match out with
          | Finished st =>
              reach_inv GOPATH fs root st ∧ queue st = [] ∧
              ∃ order, walk_inv GOPATH fs root st order
          | Raised e opened_files =>
              ∃ st order p q,
                reach_inv GOPATH fs root st ∧ queue st = q ++ [p] ∧
                walk_inv GOPATH fs root st order ∧
                opened_files = opened st ++ [package_file p]
          end).
  assert (Q out) as HQ.
  { revert Hwalk. unfold walk.
    apply (walk_loop_rule GOPATH fs root
             (λ st, reach_inv GOPATH fs root st ∧
                    ∃ order, walk_inv GOPATH fs root st order) Q).
    - intros st [Hinv Horder] Hq. done.
    - intros st p q [Hinv [order Horder]] Hq Hp.
      split; [by eapply reach_inv_skip|]. by exists order.
    - intros st p q st' [Hinv [order Horder]] Hq Hp Hv.
      split; [by eapply reach_inv_visit|].
      exists (order ++ [p]). by eapply walk_inv_visit.
    - intros st p q e [Hinv [order Horder]] Hq Hp Hv.
      by exists st, order, p, q.
    - split; [apply reach_inv_init|]. exists []. apply walk_inv_init. }
  unfold Q in HQ. clear Q.
  destruct out as [st|e opened_files]; simpl in *.
  - destruct HQ as (Hinv & Hq & order & Horder).
    pose proof (reach_inv_end st Hinv Hq) as Hvis.
    destruct Horder as (_ & Hop & Hord & _).
    split.
    + intros f Hf. rewrite Hop in Hf.
      apply list_elem_of_fmap in Hf as (p & -> & Hp).
      exists p. split; [|done]. by apply Hvis, Hord.
    + intros st' [= <-] p Hp. rewrite Hop.
      apply list_elem_of_fmap_2. by apply Hord, Hvis.
  - destruct HQ
      as (st & order & p & q & Hinv & Hq & Horder & ->).
    destruct Horder as (_ & Hop & Hord & _).
    destruct Hinv as (Hreach & _).
    split; [|done]. intros f Hf.
    apply elem_of_app in Hf as [Hf|Hf].
    + rewrite Hop in Hf. apply list_elem_of_fmap in Hf as (p' & -> & Hp').
      exists p'. split; [|done]. apply Hreach. left. by apply Hord.
    + apply list_elem_of_singleton in Hf as ->.
      exists p. split; [|done]. apply Hreach. right. rewrite Hq.
      apply elem_of_app. right. by apply list_elem_of_singleton.
Qed.


(** The record of a package is a function of the package. *)
Lemma contributes_fun (p : string) (rv rv' : RepoVersion) :
  contributes GOPATH fs p rv → contributes GOPATH fs p rv' → rv = rv'.
Proof. intros (info & Hfs & Hrv) (info' & Hfs' & Hrv'). congruence. Qed.

(** X10: the list that [get_repo_deps] returns holds exactly the records
    of the packages that can be reached from the root, the root left out,
    whose repository contains [github.com]. *)
Theorem get_repo_deps_complete (github_deps : list RepoVersion) :
  get_repo_deps GOPATH fs root = Some (Return github_deps) →
  ∀ rv, rv ∈ github_deps ↔
        ∃ p, reachable GOPATH fs root p ∧ p ≠ root ∧
             contributes GOPATH fs p rv ∧
             PyStr.contains "github.com" (git_repo rv) = true.
Proof.
  destruct (walk_returns GOPATH fs root) as [out Hout].
  rewrite (get_repo_deps_of_walk GOPATH fs root out Hout).
  pose proof (walk_reach_spec _ _ Hout) as Hreach.
  pose proof (walk_outcome_spec GOPATH fs root _ _ Hout) as Hpost.
  destruct out as [st|e opened_files]; [|done].
  intros [= <-] rv. simpl in Hreach, Hpost.
  destruct Hreach as [_ Hvis].
  destruct Hpost as (_ & order & _ & _ & Hord & _ & Hdeps).
  rewrite list_elem_of_filter. unfold is_github. split.
  - intros [Hgh Hrv]. apply list_elem_of_lookup in Hrv as [i Hi].
    destruct (Forall2_lookup_r _ _ _ _ _ Hdeps Hi) as (p & Hp & Hc).
    apply list_elem_of_lookup_2, list_elem_of_filter in Hp as [Hne Hp].
    exists p. split; [by apply Hvis, Hord|]. done.
  - intros (p & Hp & Hne & Hc & Hgh). split; [done|].
    assert (p ∈ filter (λ p, p ≠ root) order) as Hin.
    { apply list_elem_of_filter. split; [done|]. by apply Hord, Hvis. }
    apply list_elem_of_lookup in Hin as [i Hi].
    destruct (Forall2_lookup_l _ _ _ _ _ Hdeps Hi) as (rv' & Hrv' & Hc').
    rewrite (contributes_fun p rv rv' Hc Hc').
    by eapply list_elem_of_lookup_2.
Qed.

(** The manifest of the root with other keys than [gxDependencies]. *)
Lemma visit_root_keys (info info' : package_info) (p : string)
    (st : walk_state) :
  fs !! package_file root = Some (JSON info) →
  gxDependencies info' = gxDependencies info →
  visit GOPATH (<[package_file root := JSON info']> fs) root p st
  = visit GOPATH fs root p st.
Proof.
  intros Hfs Hdeps. unfold visit, load_json.
  destruct (decide (p = root)) as [->|Hne].
  - rewrite lookup_insert_eq, Hfs. simpl. rewrite Hdeps.
    destruct (match gxDependencies info with
              | Some l => enqueue_deps GOPATH l (queue st)
              | None => Return (queue st)
              end); simpl; [|done].
    by case_decide.
  - rewrite lookup_insert_ne; [done|].
    intros Heq%(inj package_file). by apply Hne.
Qed.

Lemma walk_loop_root_keys (info info' : package_info) (fuel : nat)
    (st : walk_state) :
  fs !! package_file root = Some (JSON info) →
  gxDependencies info' = gxDependencies info →
  walk_loop GOPATH (<[package_file root := JSON info']> fs) fuel root st
  = walk_loop GOPATH fs fuel root st.
Proof.
  intros Hfs Hdeps. revert st. induction fuel as [|fuel IH]; intros st.
  { done. }
  simpl. destruct (list_pop (queue st)) as [[p q]|]; [|done].
  rewrite (visit_root_keys info info') by done.
  case_decide; [apply IH|].
  destruct (visit GOPATH fs root p _); [apply IH|done].
Qed.

(** X11: the keys [gx] and [version] of the manifest of the root are never
    read: [get_repo_deps] gives the same on a root manifest with the same
    [gxDependencies], whatever its other keys. *)
Theorem get_repo_deps_root_keys (info info' : package_info) :
  fs !! package_file root = Some (JSON info) →
  gxDependencies info' = gxDependencies info →
  get_repo_deps GOPATH (<[package_file root := JSON info']> fs) root
  = get_repo_deps GOPATH fs root.
Proof.
  intros Hfs Hdeps.
  destruct (walk_returns GOPATH fs root) as [out Hout].
  destruct (walk_returns GOPATH (<[package_file root := JSON info']> fs) root)
    as [out' Hout'].
  rewrite (get_repo_deps_of_walk GOPATH fs root out Hout).
  rewrite (get_repo_deps_of_walk GOPATH _ root out' Hout').
  unfold walk in Hout, Hout'.
  set (fuel := walk_fuel fs `max`
               walk_fuel (<[package_file root := JSON info']> fs)).
  apply (walk_loop_fuel_mono GOPATH fs root _ fuel) in Hout; [|lia].
  apply (walk_loop_fuel_mono GOPATH _ root _ fuel) in Hout'; [|lia].
  rewrite (walk_loop_root_keys info info') in Hout' by done.
  rewrite Hout in Hout'. by injection Hout' as <-.
Qed.

(** X12: a root manifest with an entry of [gxDependencies] that has no
    name, or a name and no hash, after entries that have both, makes
    [get_repo_deps] raise [KeyError] for that key, whatever the other
    files are. *)
Theorem get_repo_deps_dep_key_error (info : package_info)
    (l1 l2 : list dep_info) (dep : dep_info) :
  fs !! package_file root = Some (JSON info) →
  gxDependencies info = Some (l1 ++ dep :: l2) →
  Forall (λ dep, is_Some (d_name dep) ∧ is_Some (d_hash dep)) l1 →
  d_name dep = None ∨ d_hash dep = None →
  get_repo_deps GOPATH fs root
  = Some (Raise (KeyError match d_name dep with
                          | Some _ => "hash"
                          | None => "name"
                          end)).
Proof.
  intros Hfs Hdeps Hl1 Hbad.
  unfold get_repo_deps, walk, walk_fuel. simpl.
  rewrite decide_False by (apply not_elem_of_empty).
  unfold visit, load_json. rewrite Hfs. simpl. rewrite Hdeps.
  rewrite enqueue_deps_app by done. simpl.
  destruct (d_name dep) as [dep_name|] eqn:Hn; simpl; [|done].
  destruct Hbad as [Hbad|Hbad]; [done|]. by rewrite Hbad.
Qed.

End WalkMoreFacts.

(** ** More on the repository locator *)

Section LocatorMoreFacts.
Import PyStr.

Lemma dict_of_items_Forall {A} (P : string → A → Prop)
    (items : list (string * A)) :
  Forall (λ kv, P kv.1 kv.2) items → map_Forall P (dict_of_items items).
Proof.
  unfold dict_of_items.
  assert (∀ m : gmap string A,
            map_Forall P m → Forall (λ kv, P kv.1 kv.2) items →
            map_Forall P (foldl (λ m kv, <[kv.1 := kv.2]> m) m items)) as H.
  { induction items as [|kv items IH]; intros m Hm Hitems; [done|].
    apply Forall_cons in Hitems as [Hkv Hitems]. simpl.
    apply IH; [|done]. by apply map_Forall_insert_2. }
  apply H, map_Forall_empty.
Qed.

Lemma gxed_items_gxed :
  Forall (λ kv, kv.2 = "github.com/gxed/" +:+ kv.1) gxed_items.
Proof.
  unfold gxed_items. repeat (constructor; [reflexivity|]). constructor.
Qed.

(** X13: every package of the table is located in the organisation [gxed]
    of github, under its own name and whatever its import path is, so its
    record passes the filter of [get_repo_deps]. *)
Theorem locate_git_repo_gxed (gx_pkg_name pkg : string) :
  let gxed_repo_map := delete "bbloom" (dict_of_items gxed_items) in
  get_gxed_repos_from_github = Return gxed_repo_map ∧
  ∀ git_repo,
    gxed_repo_map !! gx_pkg_name = Some git_repo →
    git_repo = "github.com/gxed/" +:+ gx_pkg_name ∧
    locate_git_repo gx_pkg_name pkg = Return git_repo ∧
    contains "github.com" git_repo = true.
Proof.
  intros gxed_repo_map. split; [apply gxed_repos_value|].
  intros git_repo Hlookup.
  assert (git_repo = "github.com/gxed/" +:+ gx_pkg_name) as Hrepo.
  { apply lookup_delete_Some in Hlookup as [_ Hlookup].
    by apply (dict_of_items_Forall
                (λ k v, v = "github.com/gxed/" +:+ k) _ gxed_items_gxed)
      in Hlookup. }
  split; [done|]. split.
  - rewrite locate_git_repo_value. fold gxed_repo_map. by rewrite Hlookup.
  - apply contains_spec. exists "", ("/gxed/" +:+ gx_pkg_name).
    by rewrite Hrepo.
Qed.

End LocatorMoreFacts.

(** ** The check of the go version *)

Section GoVersionFacts.
Local Arguments String.append !_ _ / : simpl nomatch.

Lemma is_digit_not_dot (c : ascii) : is_digit c = true → c ≠ "."%char.
Proof. by intros Hc ->. Qed.

Lemma span_digits_append (ds rest : string) :
  all_digits ds = true → no_leading_digit rest = true →
  span_digits (ds +:+ rest) = (ds, rest).
Proof.
  intros Hds Hrest. induction ds as [|c ds IH]; simpl.
  - destruct rest as [|c rest]; [done|]. simpl in *.
    by destruct (is_digit c).
  - simpl in Hds. apply andb_true_iff in Hds as [-> Hds].
    by rewrite IH.
Qed.

Lemma match_digits_append (ds rest : string) :
  all_digits ds = true → ds ≠ "" → no_leading_digit rest = true →
  match_digits (ds +:+ rest) = Some (ds, rest).
Proof.
  intros Hds Hne Hrest. unfold match_digits.
  rewrite span_digits_append by done. by destruct ds.
Qed.

Lemma match_go_version_here (major minor patch rest : string) :
  all_digits major = true → major ≠ "" →
  all_digits minor = true → minor ≠ "" →
  all_digits patch = true → patch ≠ "" →
  no_leading_digit rest = true →
  match_go_version ("go version go" +:+ major +:+ "." +:+ minor +:+ "." +:+
                    patch +:+ rest)
  = Some (major +:+ "." +:+ minor +:+ "." +:+ patch).
Proof.
  intros HM HMne Hm Hmne Hp Hpne Hrest.
  unfold match_go_version. simpl.
  rewrite (match_digits_append major) by done. simpl.
  rewrite (match_digits_append minor) by done. simpl.
  by rewrite (match_digits_append patch) by done.
Qed.

Lemma search_go_version_here (s group : string) :
  match_go_version s = Some group → search_go_version s = Some group.
Proof.
  intros Hs. destruct s as [|c s]; cbn [search_go_version]; by rewrite Hs.
Qed.

(** X14: on the output of [go version], the check compares the text of the
    version found with the text [1.11.4], character by character: the
    module is loaded exactly when the text found is not below it. *)
Theorem check_go_version_textual (res_go_version : CompletedProcess)
    (major minor patch rest : string) :
  returncode res_go_version = 0%Z →
  stdout res_go_version
  = "go version go" +:+ major +:+ "." +:+ minor +:+ "." +:+ patch +:+ rest →
  all_digits major = true → major ≠ "" →
  all_digits minor = true → minor ≠ "" →
  all_digits patch = true → patch ≠ "" →
  no_leading_digit rest = true →
  let version_str := major +:+ "." +:+ minor +:+ "." +:+ patch in
  check_go_version res_go_version
  = if String.ltb version_str "1.11.4"
    then Exception "go version should be >= 1.11.4"
    else Loaded version_str.
Proof.
  intros Hrc Hout HM HMne Hm Hmne Hp Hpne Hrest version_str.
  unfold check_go_version. rewrite decide_False by (rewrite Hrc; tauto).
  rewrite Hout.
  by rewrite (search_go_version_here _ _
                (match_go_version_here major minor patch rest
                   HM HMne Hm Hmne Hp Hpne Hrest)).
Qed.

(** X15: the comparison is not that of the numbers: go 1.9 passes the
    check, and go 1.100 does not. *)
Theorem check_go_version_not_numeric (patch rest : string) :
  all_digits patch = true → patch ≠ "" → no_leading_digit rest = true →
  check_go_version
    {| returncode := 0;
       stdout := "go version go1.9." +:+ patch +:+ rest |}
  = Loaded ("1.9." +:+ patch) ∧
  check_go_version
    {| returncode := 0;
       stdout := "go version go1.100." +:+ patch +:+ rest |}
  = Exception "go version should be >= 1.11.4".
Proof.
  intros Hp Hpne Hrest.
  pose proof (search_go_version_here _ _
                (match_go_version_here "1" "9" patch rest
                   eq_refl ltac:(done) eq_refl ltac:(done) Hp Hpne Hrest))
    as H9.
  pose proof (search_go_version_here _ _
                (match_go_version_here "1" "100" patch rest
                   eq_refl ltac:(done) eq_refl ltac:(done) Hp Hpne Hrest))
    as H100.
  change (search_go_version ("go version go1.9." +:+ patch +:+ rest)
          = Some ("1.9." +:+ patch)) in H9.
  change (search_go_version ("go version go1.100." +:+ patch +:+ rest)
          = Some ("1.100." +:+ patch)) in H100.
  unfold check_go_version. cbn [returncode stdout].
  rewrite decide_False by tauto. rewrite H9, H100.
  split; vm_compute; reflexivity.
Qed.

End GoVersionFacts.

(** ** The version found by the check *)

Section GoVersionShape.
Local Arguments String.append !_ _ / : simpl nomatch.








End GoVersionShape.

(** ** The download and the two modes *)

Section ModesFacts.
Variables GOPATH HOME : option string.
Variable E : Type.
Variable subprocess_run : string → E → CompletedProcess * E.
Variable os_chdir : string → E → option E.
Variable repr_str : string → string.
Variable os_path_exists : string → E → bool.
Variable path_mkdir : string → E → exception + E.
Variable manifests : E → gmap string file.

(** The download of a repository makes its directory, then runs one
    command: a clone when the directory has no [.git], a fetch otherwise;
    it fails when the command does. *)
Lemma download_git_repo_value (git_repo : string) (w : world E) :
  let repo_path := make_git_repo_path HOME git_repo in
  download_git_repo HOME E subprocess_run repr_str os_path_exists path_mkdir
    git_repo w =
  match path_mkdir repo_path (ext w) with
  | inl exn => (Raise exn, w)
  | inr e =>
      let cmd := if os_path_exists (make_git_path repo_path) e
                 then fetch_cmd HOME git_repo else clone_cmd HOME git_repo in
      let res := (subprocess_run cmd e).1 in
      (if decide (returncode res ≠ 0%Z) then
         Raise (DownloadFailure
                  ("failed to download/update the git repo: repo=" +:+
                   git_repo +:+ ", res=" +:+
                   repr_CompletedProcess repr_str cmd res))
       else Return (),
       {| ext := (subprocess_run cmd e).2;
          commands := commands w ++ [cmd];
          printed := printed w; debug_log := debug_log w |})
  end.
Proof.
  intros repo_path. unfold download_git_repo, io_bind, mkdir, path_exists, run.
  fold repo_path.
  destruct (path_mkdir repo_path (ext w)) as [exn|e]; [done|]. simpl.
  destruct (os_path_exists (make_git_path repo_path) e); simpl.
  - destruct (subprocess_run (fetch_cmd HOME git_repo) e) as [res e'].
    simpl. by case_decide.
  - destruct (subprocess_run (clone_cmd HOME git_repo) e) as [res e'].
    simpl. by case_decide.
Qed.

Lemma download_git_repo_effects (git_repo : string) (w : world E) :
  let r := download_git_repo HOME E subprocess_run repr_str os_path_exists
             path_mkdir git_repo w in
  printed r.2 = printed w ∧
  (∃ cmds, commands r.2 = commands w ++ cmds ∧
           length cmds ≤ 1 ∧
           Forall (download_cmd_of HOME git_repo) cmds ∧
           (r.1 = Return () → length cmds = 1)) ∧
  ∀ e, r.1 = Raise e →
       (∃ msg, e = DownloadFailure msg) ∨
       (∃ path e', path_mkdir path e' = inl e).
Proof.
  cbv zeta. rewrite download_git_repo_value. cbv zeta.
  destruct (path_mkdir (make_git_repo_path HOME git_repo) (ext w))
    as [exn|e] eqn:Hmk.
  - split; [done|]. split.
    + exists []. rewrite app_nil_r. split; [done|]. split; [simpl; lia|done].
    + intros e [= <-]. right. by eexists _, _.
  - simpl. split; [done|]. split.
    + eexists. split; [done|]. split; [simpl; lia|]. split; [|done].
      constructor; [|done]. unfold download_cmd_of.
      destruct (os_path_exists _ e); [by right|by left].
    + case_decide; [|done]. intros e' [= <-]. left. by eexists.
Qed.

(** The commands of [download_repos], one for one and in order, are the
    downloads of the repositories up to the first failure. *)
Lemma download_repos_commands (git_repos : list string) (w : world E) :
  let r := download_repos HOME E subprocess_run repr_str os_path_exists
             path_mkdir git_repos w in
  printed r.2 = printed w ∧
  (∃ n cmds, commands r.2 = commands w ++ cmds ∧
             Forall2 (download_cmd_of HOME) (take n git_repos) cmds ∧
             (r.1 = Return () → length git_repos ≤ n)) ∧
  ∀ e, r.1 = Raise e →
       (∃ msg, e = DownloadFailure msg) ∨
       (∃ path e', path_mkdir path e' = inl e).
Proof.
  unfold download_repos. revert w.
  induction git_repos as [|git_repo git_repos IH]; intros w.
  { simpl. split; [done|]. split; [|done].
    exists 0, []. rewrite app_nil_r. split; [done|]. split; [|done].
    constructor. }
  cbv zeta. rewrite for_each_cons.
  pose proof (download_git_repo_effects git_repo w)
    as (Hprinted & (cmds & Hcmds & Hle1 & Hall & Hlen) & Hraise).
  cbv zeta in Hprinted, Hcmds, Hlen, Hraise.
  destruct (download_git_repo HOME E subprocess_run repr_str os_path_exists
              path_mkdir git_repo w) as [[[]|e] w1];
    simpl in Hprinted, Hcmds, Hlen, Hraise.
  - destruct (IH w1) as (IHprinted & (n & cmds' & Hcmds' & Hall' & Hlen')
                         & IHraise).
    split; [by rewrite IHprinted|]. split; [|done].
    destruct cmds as [|cmd [|cmd' cmds]]; simpl in Hlen;
      [by specialize (Hlen eq_refl)| |by specialize (Hlen eq_refl)].
    apply Forall_cons in Hall as [Hcmd _].
    exists (S n), (cmd :: cmds'). rewrite Hcmds', Hcmds, <- app_assoc.
    split; [done|]. split; [by constructor|].
    intros Hret. rewrite length_cons. specialize (Hlen' Hret). lia.
  - split; [done|]. split; [|done].
    destruct cmds as [|cmd [|cmd' cmds]]; simpl in Hle1; [| |lia].
    + exists 0, []. split; [done|]. split; [constructor|done].
    + apply Forall_cons in Hall as [Hcmd _].
      exists 1, [cmd]. split; [done|]. split; [|done].
      simpl. constructor; [done|]. rewrite take_0. constructor.
Qed.


(** X18: the download mode ends on every finite set of manifests; when
    the walk raises, the exception leaves the mode and nothing is made or
    run; every command it runs is the clone or the fetch of a repository
    with [github.com] in its name, and when it returns it ran one command
    for each record of the walk. *)
Theorem do_download_github_only (path : string) (w : world E) :
  ∃ r,
    do_download GOPATH HOME E subprocess_run repr_str os_path_exists
      path_mkdir manifests path w = Some r ∧
    (∀ e, get_repo_deps GOPATH (manifests (ext w)) path = Some (Raise e) →
          r = (Raise e, w)) ∧
    ∃ cmds,
      commands r.2 = commands w ++ cmds ∧
      Forall (λ cmd, ∃ git_repo,
                PyStr.contains "github.com" git_repo = true ∧
                download_cmd_of HOME git_repo cmd) cmds ∧
      (r.1 = Return () →
       ∃ deps, get_repo_deps GOPATH (manifests (ext w)) path
               = Some (Return deps) ∧
               length cmds = length deps).
Proof.
  unfold do_download.
  destruct (walk_returns GOPATH (manifests (ext w)) path) as [out Hout].
  rewrite (get_repo_deps_of_walk GOPATH _ path out Hout).
  destruct out as [st|e opened_files].
  - pose proof (download_repos_commands
                  (git_repo <$> filter is_github (deps st)) w)
      as (_ & (n & cmds & Hcmds & Hall & Hlen) & _).
    cbv zeta in Hcmds, Hall, Hlen.
    eexists. split; [done|]. split; [done|].
    exists cmds. split; [done|]. split.
    + apply Forall_forall. intros cmd Hcmd.
      apply list_elem_of_lookup in Hcmd as [i Hi].
      destruct (Forall2_lookup_r _ _ _ _ _ Hall Hi) as (g & Hg & Hdl).
      exists g. split; [|done].
      apply lookup_take_Some in Hg as [Hg _].
      apply list_elem_of_lookup_2, list_elem_of_fmap in Hg as (rv & -> & Hrv).
      by apply list_elem_of_filter in Hrv as [Hgh _].
    + intros Hret. eexists. split; [done|].
      pose proof (Forall2_length _ _ _ Hall) as Hn.
      rewrite length_take in Hn. specialize (Hlen Hret).
      rewrite length_fmap in Hn, Hlen. lia.
  - eexists. split; [done|]. split; [by intros e' [= <-]|].
    exists []. rewrite app_nil_r. split; [done|]. split; [done|]. done.
Qed.

(** X19: the update mode ends on every finite set of manifests; when the
    walk raises, the exception leaves the mode, the directory is not
    changed and nothing is run; when the mode returns, the walk returned a
    list and one line was printed for each of its records. *)
Theorem do_update_effects (path : string) (w : world E) :
  ∃ r,
    do_update GOPATH HOME E subprocess_run os_chdir repr_str manifests path w
    = Some r ∧
    (∀ e, get_repo_deps GOPATH (manifests (ext w)) path = Some (Raise e) →
          r = (Raise e, w)) ∧
    (r.1 = Return () →
     ∃ deps, get_repo_deps GOPATH (manifests (ext w)) path
             = Some (Return deps) ∧
             is_Some (os_chdir path (ext w)) ∧
             length (printed r.2) = length (printed w) + length deps).
Proof.
  unfold do_update.
  destruct (walk_returns GOPATH (manifests (ext w)) path) as [out Hout].
  rewrite (get_repo_deps_of_walk GOPATH _ path out Hout).
  destruct out as [st|e opened_files].
  - eexists. split; [done|]. split; [done|].
    intros Hret. eexists. split; [done|].
    rewrite update_repos_value in Hret |- *.
    destruct (os_chdir path (ext w)) as [e'|]; [|done].
    split; [by eexists|].
    pose proof (for_each_update_repo_effects HOME E subprocess_run repr_str
                  (filter is_github (deps st))
                  {| ext := e'; commands := commands w;
                     printed := printed w; debug_log := debug_log w |})
      as (Hprinted & _).
    by apply Hprinted.
  - eexists. split; [done|]. split; [by intros e' [= <-]|]. done.
Qed.

End ModesFacts.

(** ** The commands of the update *)

Section UpdateCommands.
Variable HOME : option string.
Variable E : Type.
Variable subprocess_run : string → E → CompletedProcess * E.
Variable os_chdir : string → E → option E.
Variable repr_str : string → string.





End UpdateCommands.

(** ** The further properties on the example inputs *)

(** The download mode on the example: [c] and [a] are cloned, in the order
    of the walk, and [b], which is not on github, is not. *)
Lemma example_do_download :
  do_download example_GOPATH example_HOME () example_run example_repr
    example_exists example_mkdir example_manifests "/r" example_world
  = Some (Return (),
          {| ext := ();
             commands := [clone_cmd example_HOME "github.com/x/c";
                          clone_cmd example_HOME "github.com/x/a"];
             printed := []; debug_log := [] |}).
Proof. vm_compute. reflexivity. Qed.

Lemma get_commit_from_repo_accepts_commit_id_witness :
  (get_commit_from_repo example_HOME () example_run
     "github.com/x/a" "H1" example_world).1
  = Return (Some "5a13bddfa3a06705681ade8e1d4ea85374b6b12e").
Proof.
  refine (get_commit_from_repo_accepts_commit_id example_HOME () example_run
            "github.com/x/a" "H1" "5a13bddfa3a06705681ade8e1d4ea85374b6b12e"
            "package.json:H" example_world _ _ _ _);
    vm_compute; reflexivity.
Defined.


Lemma walk_opens_reachable_witness :
  (∀ f, f ∈ opened example_final_state →
        ∃ p, reachable example_GOPATH example_fs "/r" p ∧
             f = package_file p) ∧
  (∀ st, Finished example_final_state = Finished st →
         ∀ p, reachable example_GOPATH example_fs "/r" p →
              package_file p ∈ opened st).
Proof.
  apply (walk_opens_reachable example_GOPATH example_fs "/r"
           (Finished example_final_state)).
  vm_compute. reflexivity.
Defined.

Lemma get_repo_deps_complete_witness :
  example_rv_a ∈ [example_rv_c; example_rv_a] ↔
  ∃ p, reachable example_GOPATH example_fs "/r" p ∧ p ≠ "/r" ∧
       contributes example_GOPATH example_fs p example_rv_a ∧
       PyStr.contains "github.com" (git_repo example_rv_a) = true.
Proof.
  apply (get_repo_deps_complete example_GOPATH example_fs "/r"
           [example_rv_c; example_rv_a]).
  vm_compute. reflexivity.
Defined.

Lemma get_repo_deps_root_keys_witness :
  get_repo_deps example_GOPATH
    (<[package_file "/r" := JSON example_root_info_gx]> example_fs) "/r"
  = get_repo_deps example_GOPATH example_fs "/r".
Proof.
  apply (get_repo_deps_root_keys example_GOPATH example_fs "/r"
           example_root_info example_root_info_gx).
  - vm_compute. reflexivity.
  - reflexivity.
Defined.

Lemma get_repo_deps_dep_key_error_witness :
  get_repo_deps example_GOPATH example_fs_nohash "/r"
  = Some (Raise (KeyError "hash")).
Proof.
  refine (get_repo_deps_dep_key_error example_GOPATH example_fs_nohash "/r"
            example_info_nohash
            [ {| d_name := Some "a"; d_hash := Some "H1" |} ] []
            {| d_name := Some "b"; d_hash := None |} _ _ _ _).
  - vm_compute. reflexivity.
  - reflexivity.
  - constructor; [|constructor]. split; by eexists.
  - by right.
Defined.

Lemma check_go_version_textual_witness :
  check_go_version example_go_version = Loaded "1.12.5".
Proof.
  refine (check_go_version_textual example_go_version "1" "12" "5"
            (" linux/amd64" +:+ String "010" "") _ _ _ _ _ _ _ _ _);
    first [reflexivity | discriminate].
Defined.

Lemma check_go_version_not_numeric_witness :
  check_go_version
    {| returncode := 0; stdout := "go version go1.9.7 linux/amd64" |}
  = Loaded "1.9.7" ∧
  check_go_version
    {| returncode := 0; stdout := "go version go1.100.7 linux/amd64" |}
  = Exception "go version should be >= 1.11.4".
Proof.
  refine (check_go_version_not_numeric "7" " linux/amd64" _ _ _);
    first [reflexivity | discriminate].
Defined.

